(** * Cinema tickets and orders: the models of [db/models.py]

    A shallow embedding of the Django models of the ticketing schema and
    of the one routine with logic in it, [Ticket.clean], together with the
    part of the object-relational layer the models configure declaratively
    ([Meta.ordering], [Meta.constraints], [on_delete]).

    Python integers are unbounded, so every integer field is a [Z].
    A time stamp is a [Z] as well (a point on the clock).  [Genre], [Actor]
    and [Movie] carry no behaviour; a movie and a user appear only as the
    primary key a foreign key holds. *)

From Stdlib Require Import ZArith Lia Ascii.
From stdpp Require Import base decidable option list strings pretty gmap sorting.

Open Scope Z_scope.

(** ** Exceptions *)

(** The mapping from a field name to its messages that a
    [ValidationError] built from a dict carries. *)
Abbreviation ErrorDict := (gmap string (list string)).

(** The exceptions the modelled code paths raise.  [ValidationError]
    keeps the two arguments the source passes to the constructor: the dict
    of field messages and the [code] keyword. *)
Inductive Exception :=
  | ValidationError (message : ErrorDict) (code : option string)
  | IntegrityError (constraint : string)
  | ProtectedError (msg : string)
  | ValueError (msg : string)
  | OverflowError (msg : string).

(** The name Django gives to errors that belong to no single field. *)
Definition NON_FIELD_ERRORS : string := "__all__".

(** [ValidationError.update_error_dict]: the messages of [e] are appended,
    field by field, after those already collected. *)
Definition update_error_dict (e errors : ErrorDict) : ErrorDict :=
  union_with (λ old new, Some (old ++ new)) errors e.

(** ** The models, as the objects Python code holds *)

(** [class CinemaHall]: [rows] and [seats_in_row] are [IntegerField]s. *)
Record CinemaHall := {
  hall_pk : option Z;
  hall_name : string;
  rows : Z;
  seats_in_row : Z
}.

(** [CinemaHall.capacity] *)
Definition CinemaHall_capacity (self : CinemaHall) : Z :=
  rows self * seats_in_row self.

(** [class MovieSession] *)
Record MovieSession := {
  session_pk : option Z;
  show_time : Z;
  cinema_hall : CinemaHall;
  movie : Z
}.

(** [class Order]; [created_at] is unset until the first save. *)
Record Order := {
  order_pk : option Z;
  created_at : option Z;
  user : Z
}.

(** [class Order: class Meta: ordering] *)
Definition Order_Meta_ordering : list string := ["-created_at"].

(** [class Ticket] *)
Record Ticket := {
  ticket_pk : option Z;
  movie_session : MovieSession;
  order : Order;
  row : Z;
  seat : Z
}.

(** A declared [UniqueConstraint(fields=..., name=...)]. *)
Record UniqueConstraint := {
  fields : list string;
  name : string
}.

(** [class Ticket: class Meta: constraints] *)
Definition Ticket_Meta_constraints : list UniqueConstraint :=
  [ {| fields := ["row"; "seat"; "movie_session"];
       name := "unique_ticket_constraint_name" |} ].

(** The [on_delete] argument of a [ForeignKey]. *)
Inductive OnDelete := CASCADE | PROTECT | DO_NOTHING.

(** [Ticket.movie_session = ForeignKey(MovieSession, on_delete=CASCADE)] *)
Definition Ticket_movie_session_on_delete : OnDelete := CASCADE.
(** [Ticket.order = ForeignKey(Order, on_delete=CASCADE)] *)
Definition Ticket_order_on_delete : OnDelete := CASCADE.

(** ** The validator *)

(** The message of the first [raise] of [Ticket.clean]:
    the two adjacent literals, then [.format(cinema_hall.rows)]. *)
Definition row_message (hall_rows : Z) : string :=
  "row number must be in available range: (1, rows): (1, "
    +:+ pretty hall_rows +:+ ")".

(** The message of the second [raise] of [Ticket.clean]. *)
Definition seat_message (hall_seats : Z) : string :=
  "seat number must be in available range: (1, seats_in_row): (1, "
    +:+ pretty hall_seats +:+ ")".

(** [Ticket.clean]: [inr tt] is the normal return, [inl e] a raised [e].
    [1 <= x <= n] is Python's chained comparison. *)
Definition Ticket_clean (self : Ticket) : Exception + unit :=
  let cinema_hall := cinema_hall (movie_session self) in
  if negb ((1 <=? row self) && (row self <=? rows cinema_hall)) then
    inl (ValidationError
           {[ "row" := [row_message (rows cinema_hall)] ]}
           (Some "seat_out_of_range"))
  else if negb ((1 <=? seat self) && (seat self <=? seats_in_row cinema_hall)) then
    inl (ValidationError
           {[ "seat" := [seat_message (seats_in_row cinema_hall)] ]}
           (Some "seat_out_of_range"))
  else inr tt.

(** ** The storage layer *)

(** One record per table row: a foreign key is stored as the primary key
    it refers to. *)
Record CinemaHallRow := {
  ch_id : Z; ch_name : string; ch_rows : Z; ch_seats_in_row : Z
}.
Record MovieSessionRow := {
  ms_id : Z; ms_show_time : Z; ms_cinema_hall_id : Z; ms_movie_id : Z
}.
Record OrderRow := {
  o_id : Z; o_created_at : Z; o_user_id : Z
}.
Record TicketRow := {
  t_id : Z; t_movie_session_id : Z; t_order_id : Z; t_row : Z; t_seat : Z
}.

(** The persisted state.  [write_attempts] counts the saves and deletes
    that reached the storage engine, whether it accepted them or not: one
    per call, however many statements the call is made of. *)
Record DB := {
  cinema_hall_table : list CinemaHallRow;
  movie_session_table : list MovieSessionRow;
  order_table : list OrderRow;
  ticket_table : list TicketRow;
  write_attempts : nat
}.

Definition empty_db : DB :=
  {| cinema_hall_table := []; movie_session_table := [];
     order_table := []; ticket_table := []; write_attempts := 0 |}.

Definition attempt (db : DB) : DB :=
  {| cinema_hall_table := cinema_hall_table db;
     movie_session_table := movie_session_table db;
     order_table := order_table db;
     ticket_table := ticket_table db;
     write_attempts := S (write_attempts db) |}.

Definition set_cinema_hall_table (l : list CinemaHallRow) (db : DB) : DB :=
  {| cinema_hall_table := l;
     movie_session_table := movie_session_table db;
     order_table := order_table db;
     ticket_table := ticket_table db;
     write_attempts := write_attempts db |}.

Definition set_movie_session_table (l : list MovieSessionRow) (db : DB) : DB :=
  {| cinema_hall_table := cinema_hall_table db;
     movie_session_table := l;
     order_table := order_table db;
     ticket_table := ticket_table db;
     write_attempts := write_attempts db |}.

Definition set_order_table (l : list OrderRow) (db : DB) : DB :=
  {| cinema_hall_table := cinema_hall_table db;
     movie_session_table := movie_session_table db;
     order_table := l;
     ticket_table := ticket_table db;
     write_attempts := write_attempts db |}.

Definition set_ticket_table (l : list TicketRow) (db : DB) : DB :=
  {| cinema_hall_table := cinema_hall_table db;
     movie_session_table := movie_session_table db;
     order_table := order_table db;
     ticket_table := l;
     write_attempts := write_attempts db |}.

(** The key an auto-incremented primary key column hands out next. *)
Definition fresh_pk (ids : list Z) : Z := 1 + foldr Z.max 0 ids.

(** INSERT when no row has the key of [r], UPDATE of that row otherwise. *)
Definition store_row {R} (id_of : R → Z) (r : R) (table : list R) : list R :=
  if bool_decide (id_of r ∈ id_of <$> table)
  then (λ r', if bool_decide (id_of r' = id_of r) then r else r') <$> table
  else table ++ [r].

(** The value a ticket row holds for a model field name. *)
Definition TicketRow_column (field : string) (r : TicketRow) : option Z :=
  if bool_decide (field = "id") then Some (t_id r)
  else if bool_decide (field = "movie_session") then Some (t_movie_session_id r)
  else if bool_decide (field = "order") then Some (t_order_id r)
  else if bool_decide (field = "row") then Some (t_row r)
  else if bool_decide (field = "seat") then Some (t_seat r)
  else None.

(** Two rows hold the same value in every field of the list. *)
Definition agree_on (fs : list string) (r1 r2 : TicketRow) : bool :=
  forallb (λ f, bool_decide (TicketRow_column f r1 = TicketRow_column f r2)) fs.

(** The first declared constraint of [Ticket.Meta] that the row [r] would
    break next to the rows [others]. *)
Definition violated_constraint (r : TicketRow) (others : list TicketRow)
  : option UniqueConstraint :=
  find (λ c, existsb (agree_on (fields c) r) others) Ticket_Meta_constraints.

(** [Model.save] of a [Ticket] ([super().save(...)] in [Ticket.save], with
    the default arguments): the write itself.  The storage engine checks
    the two foreign keys and the declared constraints, and refuses the
    statement with [IntegrityError]; the saved object receives its key.
    The row and the seat are integers the column holds: on the path of
    [Ticket.save], [full_clean] has checked it. *)
Definition Model_save_Ticket (self : Ticket) (db : DB)
  : (Exception + Ticket) * DB :=
  match session_pk (movie_session self), order_pk (order self) with
  | Some ms, Some o =>
      let id := default (fresh_pk (t_id <$> ticket_table db)) (ticket_pk self) in
      let r := {| t_id := id; t_movie_session_id := ms; t_order_id := o;
                  t_row := row self; t_seat := seat self |} in
      let others := filter (λ r', t_id r' ≠ id) (ticket_table db) in
      if negb (bool_decide (ms ∈ ms_id <$> movie_session_table db)
               && bool_decide (o ∈ o_id <$> order_table db))
      then (inl (IntegrityError "FOREIGN KEY constraint failed"), attempt db)
      else match violated_constraint r others with
           | Some c => (inl (IntegrityError (name c)), attempt db)
           | None =>
               (inr {| ticket_pk := Some id;
                       movie_session := movie_session self;
                       order := order self;
                       row := row self; seat := seat self |},
                set_ticket_table (store_row t_id r (ticket_table db)) (attempt db))
           end
  | _, _ =>
      (inl (ValueError "save() prohibited: unsaved related object"), db)
  end.

(** The validation steps of [Model.full_clean] that a model inherits from
    the framework and [Ticket] leaves as they are. *)
Class ModelValidation := {
  clean_fields : Ticket → DB → ErrorDict;
  validate_unique : gset string → Ticket → DB → ErrorDict
}.

(** The end of [Model.full_clean]: the uniqueness step skips the fields
    that already failed, and any collected error is raised. *)
Definition full_clean_finish `{ModelValidation}
    (errors : ErrorDict) (self : Ticket) (db : DB) : Exception + unit :=
  let exclude := dom errors ∖ {[ NON_FIELD_ERRORS ]} in
  let errors := update_error_dict (validate_unique exclude self db) errors in
  if bool_decide (errors = ∅) then inr tt
  else inl (ValidationError errors None).

(** [Model.full_clean] on a [Ticket]: [clean_fields], then the model's own
    [clean], then the uniqueness step, each [ValidationError] collected
    into one dict. *)
Definition Ticket_full_clean `{ModelValidation}
    (self : Ticket) (db : DB) : Exception + unit :=
  let errors := update_error_dict (clean_fields self db) ∅ in
  match Ticket_clean self with
  | inl (ValidationError e _) =>
      full_clean_finish (update_error_dict e errors) self db
  | inl exn => inl exn
  | inr _ => full_clean_finish errors self db
  end.

(** [Ticket.save], called with the default arguments. *)
Definition Ticket_save `{ModelValidation} (self : Ticket) (db : DB)
  : (Exception + Ticket) * DB :=
  match Ticket_full_clean self db with
  | inl e => (inl e, db)
  | inr _ => Model_save_Ticket self db
  end.

(** The integers an integer column holds: 64-bit signed, as on SQLite, the
    storage engine of a Django project whose settings name no other. *)
Definition integer_field_range : Z * Z :=
  (-9223372036854775808, 9223372036854775807).

Definition fits_integer_column (z : Z) : bool :=
  (integer_field_range.1 <=? z) && (z <=? integer_field_range.2).

(** [Model.save] of a [CinemaHall]: the class overrides neither [save] nor
    [clean] and declares no constraint, so the fields are written as they
    are.  An integer the column cannot hold is refused before anything is
    stored. *)
Definition CinemaHall_save (self : CinemaHall) (db : DB)
  : (Exception + CinemaHall) * DB :=
  if fits_integer_column (rows self)
     && fits_integer_column (seats_in_row self)
     && from_option fits_integer_column true (hall_pk self)
  then
    let id := default (fresh_pk (ch_id <$> cinema_hall_table db)) (hall_pk self) in
    let r := {| ch_id := id; ch_name := hall_name self;
                ch_rows := rows self; ch_seats_in_row := seats_in_row self |} in
    (inr {| hall_pk := Some id; hall_name := hall_name self;
            rows := rows self; seats_in_row := seats_in_row self |},
     set_cinema_hall_table (store_row ch_id r (cinema_hall_table db)) (attempt db))
  else
    (inl (OverflowError "Python int too large to convert to SQLite INTEGER"), db).

(** [Order.objects.create(user=...)] at clock time [now]:
    [auto_now_add] stamps [created_at] on the insert. *)
Definition Order_objects_create (now : Z) (user_id : Z) (db : DB) : Order * DB :=
  let id := fresh_pk (o_id <$> order_table db) in
  ({| order_pk := Some id; created_at := Some now; user := user_id |},
   set_order_table
     (order_table db ++ [ {| o_id := id; o_created_at := now; o_user_id := user_id |} ])
     (attempt db)).

(** *** Default ordering of a query set *)

Definition OrderRow_column (field : string) (r : OrderRow) : option Z :=
  if bool_decide (field = "id") then Some (o_id r)
  else if bool_decide (field = "created_at") then Some (o_created_at r)
  else if bool_decide (field = "user") then Some (o_user_id r)
  else None.

(** An ordering key is a field name, with a leading [-] for descending. *)
Definition get_order_dir (key : string) : string * bool :=
  match key with
  | String "-"%char f => (f, true)
  | _ => (key, false)
  end.

Definition compare_column (a b : option Z) : comparison :=
  match a, b with
  | Some x, Some y => x ?= y
  | None, None => Eq
  | None, Some _ => Lt
  | Some _, None => Gt
  end.

Definition compare_key (key : string) (r1 r2 : OrderRow) : comparison :=
  let '(f, descending) := get_order_dir key in
  let c := compare_column (OrderRow_column f r1) (OrderRow_column f r2) in
  if descending : bool then CompOpp c else c.

(** ORDER BY over a list of keys: the first key that tells the rows apart
    decides. *)
Fixpoint compare_by (keys : list string) (r1 r2 : OrderRow) : comparison :=
  match keys with
  | [] => Eq
  | k :: ks =>
      match compare_key k r1 r2 with
      | Eq => compare_by ks r1 r2
      | c => c
      end
  end.

Definition precedes (keys : list string) : relation OrderRow :=
  λ r1 r2, compare_by keys r1 r2 ≠ Gt.

Global Instance precedes_dec keys r1 r2 : Decision (precedes keys r1 r2).
Proof. unfold precedes. apply _. Defined.

Definition Order_of_row (r : OrderRow) : Order :=
  {| order_pk := Some (o_id r); created_at := Some (o_created_at r);
     user := o_user_id r |}.

(** [Order.objects.all()]: the rows of the table in the model's default
    ordering. *)
Definition Order_objects_all (db : DB) : list Order :=
  Order_of_row <$> merge_sort (precedes Order_Meta_ordering) (order_table db).

(** *** Deletion *)

(** What deleting a parent row does to a table of rows that may refer to
    it, under the [on_delete] policy of the foreign key. *)
Definition on_parent_delete {R} (policy : OnDelete)
    (refers : R → Prop) `{∀ r, Decision (refers r)}
    (table : list R) : Exception + list R :=
  match policy with
  | CASCADE => inr (filter (λ r, ¬ refers r) table)
  | PROTECT =>
      if decide (Exists refers table)
      then inl (ProtectedError "referenced through a protected foreign key")
      else inr table
  | DO_NOTHING =>
      if decide (Exists refers table)
      then inl (IntegrityError "FOREIGN KEY constraint failed")
      else inr table
  end.

(** [Model.delete] of a [MovieSession]: the only model with a foreign key
    to it is [Ticket]. *)
Definition MovieSession_delete (self : MovieSession) (db : DB)
  : (Exception + unit) * DB :=
  match session_pk self with
  | None => (inl (ValueError "object cannot be deleted: its pk is None"), db)
  | Some id =>
      match on_parent_delete Ticket_movie_session_on_delete
              (λ r, t_movie_session_id r = id) (ticket_table db) with
      | inl e => (inl e, db)
      | inr tickets =>
          (inr tt,
           set_movie_session_table
             (filter (λ r, ms_id r ≠ id) (movie_session_table db))
             (set_ticket_table tickets (attempt db)))
      end
  end.

(** [Model.delete] of an [Order]: again [Ticket] is the only model that
    refers to it. *)
Definition Order_delete (self : Order) (db : DB) : (Exception + unit) * DB :=
  match order_pk self with
  | None => (inl (ValueError "object cannot be deleted: its pk is None"), db)
  | Some id =>
      match on_parent_delete Ticket_order_on_delete
              (λ r, t_order_id r = id) (ticket_table db) with
      | inl e => (inl e, db)
      | inr tickets =>
          (inr tt,
           set_order_table
             (filter (λ r, o_id r ≠ id) (order_table db))
             (set_ticket_table tickets (attempt db)))
      end
  end.

(** ** Vocabulary of the statements *)

(** The hall a ticket is validated against. *)
Definition hall_of (t : Ticket) : CinemaHall := cinema_hall (movie_session t).

Definition row_in_range (t : Ticket) : Prop :=
  1 ≤ row t ∧ row t ≤ rows (hall_of t).

Definition seat_in_range (t : Ticket) : Prop :=
  1 ≤ seat t ∧ seat t ≤ seats_in_row (hall_of t).

(** The outcome is a [ValidationError] with an entry for [field]. *)
Definition reports_field (res : Exception + unit) (field : string) : Prop :=
  ∃ d c, res = inl (ValidationError d c) ∧ is_Some (d !! field).

(** The seat-out-of-range error on one field, as [Ticket.clean] builds it. *)
Definition SeatOutOfRange (field msg : string) : Exception :=
  ValidationError {[ field := [msg] ]} (Some "seat_out_of_range").

(** The same ticket with another row or seat. *)
Definition with_seat (s : Z) (t : Ticket) : Ticket :=
  {| ticket_pk := ticket_pk t; movie_session := movie_session t;
     order := order t; row := row t; seat := s |}.

Definition new_ticket (ms : MovieSession) (o : Order) (r s : Z) : Ticket :=
  {| ticket_pk := None; movie_session := ms; order := o; row := r; seat := s |}.

(** A 10 by 15 hall and a session in it, for the worked examples. *)
Definition example_hall : CinemaHall :=
  {| hall_pk := Some 1; hall_name := "Blue"; rows := 10; seats_in_row := 15 |}.
Definition example_session : MovieSession :=
  {| session_pk := Some 1; show_time := 1000;
     cinema_hall := example_hall; movie := 1 |}.
Definition example_order : Order :=
  {| order_pk := Some 1; created_at := Some 900; user := 1 |}.

Global Instance row_in_range_dec (t : Ticket) : Decision (row_in_range t).
Proof. unfold row_in_range. apply _. Defined.

Global Instance seat_in_range_dec (t : Ticket) : Decision (seat_in_range t).
Proof. unfold seat_in_range. apply _. Defined.

(** The seat a stored ticket occupies: session, row and seat. *)
Definition seat_key (r : TicketRow) : Z * Z * Z :=
  (t_movie_session_id r, t_row r, t_seat r).

(** No seat of a session is held by two stored tickets. *)
Definition no_double_booking (db : DB) : Prop :=
  NoDup (seat_key <$> ticket_table db).

(** Primary keys of stored tickets are distinct. *)
Definition ticket_pk_unique (db : DB) : Prop :=
  NoDup (t_id <$> ticket_table db).

(** [o1] was created no earlier than [o2]. *)
Definition created_at_desc (o1 o2 : Order) : Prop :=
  ∃ a b, created_at o1 = Some a ∧ created_at o2 = Some b ∧ b ≤ a.

(** *** The inherited steps as the framework runs them *)

(** The entry of a field in the collected errors: none when the field
    raised nothing. *)
Definition field_entry (field : string) (msgs : list string) : ErrorDict :=
  match msgs with
  | [] => ∅
  | _ => {[ field := msgs ]}
  end.

(** The range validators of an [IntegerField]. *)
Definition integer_field_errors (value : Z) : list string :=
  if value <? integer_field_range.1 then
    ["Ensure this value is greater than or equal to "
       +:+ pretty integer_field_range.1 +:+ "."]
  else if integer_field_range.2 <? value then
    ["Ensure this value is less than or equal to "
       +:+ pretty integer_field_range.2 +:+ "."]
  else [].

(** [ForeignKey.validate]: the key is set and a row with it is stored. *)
Definition foreign_key_errors (model_name : string) (pk : option Z)
    (stored : list Z) : list string :=
  match pk with
  | None => ["This field cannot be null."]
  | Some id =>
      if bool_decide (id ∈ stored) then []
      else [model_name +:+ " instance with id " +:+ pretty id
              +:+ " does not exist."]
  end.

(** [Model.clean_fields] on a [Ticket]: the key when it is set, the two
    foreign keys, the row and the seat. *)
Definition django_clean_fields (self : Ticket) (db : DB) : ErrorDict :=
  field_entry "id" (from_option integer_field_errors [] (ticket_pk self))
  ∪ field_entry "movie_session"
      (foreign_key_errors "movie session" (session_pk (movie_session self))
         (ms_id <$> movie_session_table db))
  ∪ field_entry "order"
      (foreign_key_errors "order" (order_pk (order self))
         (o_id <$> order_table db))
  ∪ field_entry "row" (integer_field_errors (row self))
  ∪ field_entry "seat" (integer_field_errors (seat self)).

(** The value a ticket object holds for a model field name. *)
Definition Ticket_lookup_value (field : string) (self : Ticket) : option Z :=
  if bool_decide (field = "id") then ticket_pk self
  else if bool_decide (field = "movie_session") then session_pk (movie_session self)
  else if bool_decide (field = "order") then order_pk (order self)
  else if bool_decide (field = "row") then Some (row self)
  else if bool_decide (field = "seat") then Some (seat self)
  else None.

(** The label of a field in a message: its verbose name, capitalised. *)
Definition field_label (field : string) : string :=
  if bool_decide (field = "movie_session") then "Movie session"
  else if bool_decide (field = "order") then "Order"
  else if bool_decide (field = "row") then "Row"
  else if bool_decide (field = "seat") then "Seat"
  else field.

(** [get_text_list(labels, "and")] *)
Fixpoint get_text_list (labels : list string) : string :=
  match labels with
  | [] => ""
  | [a] => a
  | [a; b] => a +:+ " and " +:+ b
  | a :: rest => a +:+ ", " +:+ get_text_list rest
  end.

(** [Model.unique_error_message] for a constraint over several fields. *)
Definition unique_error_message (c : UniqueConstraint) : string :=
  "Ticket with this " +:+ get_text_list (field_label <$> fields c)
    +:+ " already exists.".

(** The check of one declared constraint: it is skipped when one of its
    fields already failed or holds no value, and it looks for a stored
    row, other than the ticket's own, with the same values.  A ticket
    that carries a key is taken to be one read from the store. *)
Definition breaks_unique (exclude : gset string) (c : UniqueConstraint)
    (self : Ticket) (db : DB) : bool :=
  let others :=
    match ticket_pk self with
    | Some id => filter (λ r', t_id r' ≠ id) (ticket_table db)
    | None => ticket_table db
    end in
  forallb (λ f, bool_decide (f ∉ exclude)
                && bool_decide (is_Some (Ticket_lookup_value f self)))
    (fields c)
  && existsb
       (λ r', forallb
                (λ f, bool_decide
                        (TicketRow_column f r' = Ticket_lookup_value f self))
                (fields c))
       others.

(** The uniqueness step of [Model.full_clean] over [Meta.constraints]:
    its errors belong to no single field. *)
Definition django_validate_unique (exclude : gset string) (self : Ticket)
    (db : DB) : ErrorDict :=
  field_entry NON_FIELD_ERRORS
    (unique_error_message <$>
       List.filter (λ c, breaks_unique exclude c self db) Ticket_Meta_constraints).

Definition django_validation : ModelValidation :=
  {| clean_fields := django_clean_fields;
     validate_unique := django_validate_unique |}.

(** A store holding the example hall, session and order and no ticket. *)
Definition example_db : DB :=
  {| cinema_hall_table :=
       [ {| ch_id := 1; ch_name := "Blue"; ch_rows := 10; ch_seats_in_row := 15 |} ];
     movie_session_table :=
       [ {| ms_id := 1; ms_show_time := 1000; ms_cinema_hall_id := 1; ms_movie_id := 1 |} ];
     order_table := [ {| o_id := 1; o_created_at := 900; o_user_id := 1 |} ];
     ticket_table := [];
     write_attempts := 0 |}.

(** ** Display strings *)

(** [MovieSession.__str__].  The model keeps a movie as its key and a
    time stamp as a number, so the title of a movie and Python's [str] of
    a [datetime] are the two arguments [title_of] and [str_datetime]. *)
Definition MovieSession_str (title_of str_datetime : Z → string)
    (self : MovieSession) : string :=
  title_of (movie self) +:+ " " +:+ str_datetime (show_time self).

(** [Ticket.__str__] *)
Definition Ticket_str (title_of str_datetime : Z → string)
    (self : Ticket) : string :=
  MovieSession_str title_of str_datetime (movie_session self)
    +:+ " (row: " +:+ pretty (row self)
    +:+ ", seat: " +:+ pretty (seat self) +:+ ")".

(** The character [c] does not occur in [s]. *)
Fixpoint char_free (c : ascii) (s : string) : Prop :=
  match s with
  | EmptyString => True
  | String a s' => a ≠ c ∧ char_free c s'
  end.

(** ** Seats, sessions and consistent stores *)

(** The seats of a hall: every pair from (1, 1) to (rows, seats_in_row). *)
Definition hall_seats (hall : CinemaHall) : list (Z * Z) :=
  list_prod (seqZ 1 (rows hall)) (seqZ 1 (seats_in_row hall)).

(** The stored tickets of one session. *)
Definition session_tickets (msid : Z) (db : DB) : list TicketRow :=
  filter (λ r, t_movie_session_id r = msid) (ticket_table db).

(** Every stored ticket of the session lies inside the hall. *)
Definition session_within (msid : Z) (hall : CinemaHall) (db : DB) : Prop :=
  ∀ r, r ∈ ticket_table db → t_movie_session_id r = msid →
       (1 ≤ t_row r ∧ t_row r ≤ rows hall)
       ∧ (1 ≤ t_seat r ∧ t_seat r ≤ seats_in_row hall).

(** Every stored ticket refers to a stored session and a stored order. *)
Definition referential_integrity (db : DB) : Prop :=
  ∀ r, r ∈ ticket_table db →
       t_movie_session_id r ∈ ms_id <$> movie_session_table db
       ∧ t_order_id r ∈ o_id <$> order_table db.

Definition consistent (db : DB) : Prop :=
  ticket_pk_unique db ∧ no_double_booking db ∧ referential_integrity db.

(** The operations on the store, and a program of them run in order. *)
Inductive Operation :=
  | OpTicketSave (t : Ticket)
  | OpMovieSessionDelete (s : MovieSession)
  | OpOrderDelete (o : Order)
  | OpCinemaHallSave (h : CinemaHall)
  | OpOrderCreate (now user_id : Z).

Definition run `{ModelValidation} (op : Operation) (db : DB) : DB :=
  match op with
  | OpTicketSave t => (Ticket_save t db).2
  | OpMovieSessionDelete s => (MovieSession_delete s db).2
  | OpOrderDelete o => (Order_delete o db).2
  | OpCinemaHallSave h => (CinemaHall_save h db).2
  | OpOrderCreate now user_id => (Order_objects_create now user_id db).2
  end.

Definition run_all `{ModelValidation} (ops : list Operation) (db : DB) : DB :=
  foldl (λ db op, run op db) db ops.

(** ** The three outcomes of [Ticket.clean] *)

Lemma Ticket_clean_row_out (t : Ticket) :
  ¬ row_in_range t →
  Ticket_clean t = inl (SeatOutOfRange "row" (row_message (rows (hall_of t)))).
Proof.
  unfold row_in_range, hall_of, Ticket_clean, SeatOutOfRange. intros Hrow.
  destruct (1 <=? row t) eqn:Hlo; destruct (row t <=? rows _) eqn:Hhi;
    simpl; try reflexivity.
  exfalso. apply Hrow. split; [by apply Z.leb_le | by apply Z.leb_le].
Qed.

Lemma Ticket_clean_seat_out (t : Ticket) :
  row_in_range t → ¬ seat_in_range t →
  Ticket_clean t
    = inl (SeatOutOfRange "seat" (seat_message (seats_in_row (hall_of t)))).
Proof.
  unfold row_in_range, seat_in_range, hall_of, Ticket_clean, SeatOutOfRange.
  intros [Hlo Hhi] Hseat.
  apply Z.leb_le in Hlo, Hhi. rewrite Hlo, Hhi. simpl.
  destruct (1 <=? seat t) eqn:Hslo; destruct (seat t <=? seats_in_row _) eqn:Hshi;
    simpl; try reflexivity.
  exfalso. apply Hseat. split; [by apply Z.leb_le | by apply Z.leb_le].
Qed.

Lemma Ticket_clean_in_range (t : Ticket) :
  row_in_range t → seat_in_range t → Ticket_clean t = inr tt.
Proof.
  unfold row_in_range, seat_in_range, hall_of, Ticket_clean.
  intros [Hlo Hhi] [Hslo Hshi].
  apply Z.leb_le in Hlo, Hhi, Hslo, Hshi.
  by rewrite Hlo, Hhi, Hslo, Hshi.
Qed.

Lemma reports_field_SeatOutOfRange (field msg f : string) :
  reports_field (inl (SeatOutOfRange field msg)) f ↔ f = field.
Proof.
  unfold reports_field, SeatOutOfRange. split.
  - intros (d & c & Heq & [msgs Hd]). simplify_eq.
    destruct (decide (field = f)) as [->|Hne]; [done|].
    by rewrite lookup_singleton_ne in Hd.
  - intros ->. eexists _, _. split; [done|].
    rewrite lookup_singleton_eq. by eexists.
Qed.

(** ** The validator: [Ticket.clean] *)

(** C3.  In a hall of [R] rows and [S] seats per row, a ticket whose row
    is between 1 and [R] and whose seat is between 1 and [S] passes the
    validator: [clean] returns normally and raises nothing. *)
Theorem clean_accepts_in_range (hall : CinemaHall) (t : Ticket) :
  hall_of t = hall →
  1 ≤ row t ≤ rows hall →
  1 ≤ seat t ≤ seats_in_row hall →
  Ticket_clean t = inr tt.
Proof.
  intros <- Hrow Hseat. by apply Ticket_clean_in_range.
Qed.

Lemma clean_accepts_in_range_witness :
  Ticket_clean (new_ticket example_session example_order 10 15) = inr tt.
Proof.
  apply (clean_accepts_in_range example_hall).
  - reflexivity.
  - simpl. lia.
  - simpl. lia.
Defined.

(** C10.  The validator stops at the row check.  When the row is out of
    range the outcome is the error on the field [row] alone, it has no
    entry for [seat], and it is the same whatever the seat is; so an
    error on the field [seat] can only come from a ticket whose row is
    in range. *)
Theorem clean_short_circuits_on_row (t : Ticket) :
  (¬ row_in_range t →
     Ticket_clean t = inl (SeatOutOfRange "row" (row_message (rows (hall_of t))))
     ∧ ¬ reports_field (Ticket_clean t) "seat"
     ∧ ∀ s, Ticket_clean (with_seat s t) = Ticket_clean t)
  ∧ (reports_field (Ticket_clean t) "seat" → row_in_range t).
Proof.
  split.
  - intros Hrow. split; [by apply Ticket_clean_row_out|]. split.
    + rewrite Ticket_clean_row_out by done.
      rewrite reports_field_SeatOutOfRange. discriminate.
    + intros s. rewrite !Ticket_clean_row_out; done.
  - intros Hseat. destruct (decide (row_in_range t)) as [|Hout]; [done|].
    rewrite Ticket_clean_row_out in Hseat by done.
    apply reports_field_SeatOutOfRange in Hseat. discriminate.
Qed.

Lemma clean_short_circuits_on_row_witness :
  Ticket_clean (new_ticket example_session example_order 0 99)
    = inl (SeatOutOfRange "row"
             "row number must be in available range: (1, rows): (1, 10)")
  ∧ ¬ reports_field
        (Ticket_clean (new_ticket example_session example_order 0 99)) "seat".
Proof.
  pose proof (proj1 (clean_short_circuits_on_row
                (new_ticket example_session example_order 0 99))) as H.
  destruct H as (H1 & H2 & _).
  - unfold row_in_range. simpl. lia.
  - split; [exact H1 | exact H2].
Defined.

(** C1, as the code has it.  When both the row and the seat are out of
    range, the outcome of the validator has an entry for the field [row]
    and none for the field [seat]: only the first failing check is
    reported. *)
Theorem clean_both_out_reports_row_only (t : Ticket) :
  ¬ row_in_range t → ¬ seat_in_range t →
  Ticket_clean t = inl (SeatOutOfRange "row" (row_message (rows (hall_of t))))
  ∧ reports_field (Ticket_clean t) "row"
  ∧ ¬ reports_field (Ticket_clean t) "seat".
Proof.
  intros Hrow _. rewrite Ticket_clean_row_out by done.
  rewrite !reports_field_SeatOutOfRange. by repeat split.
Qed.

Lemma clean_both_out_reports_row_only_witness :
  reports_field (Ticket_clean (new_ticket example_session example_order 11 16)) "row"
  ∧ ¬ reports_field
        (Ticket_clean (new_ticket example_session example_order 11 16)) "seat".
Proof.
  apply (clean_both_out_reports_row_only
           (new_ticket example_session example_order 11 16)).
  - unfold row_in_range. simpl. lia.
  - unfold seat_in_range. simpl. lia.
Defined.

(** C1 as stated fails: row 0 and seat 0 in the 10 by 15 hall are both out
    of range, yet the outcome does not hold both a [row] and a [seat]
    entry. *)
Lemma clean_both_fields_counterexample :
  let t := new_ticket example_session example_order 0 0 in
  ¬ row_in_range t ∧ ¬ seat_in_range t
  ∧ ¬ (reports_field (Ticket_clean t) "row"
       ∧ reports_field (Ticket_clean t) "seat").
Proof.
  intros t. assert (Hrow : ¬ row_in_range t) by (unfold row_in_range; simpl; lia).
  split; [done|]. split; [unfold seat_in_range; simpl; lia|].
  intros [_ Hseat]. rewrite Ticket_clean_row_out in Hseat by done.
  apply reports_field_SeatOutOfRange in Hseat. discriminate.
Qed.

(** C4, as the code has it.  A row outside [1, rows] fails with the
    seat-out-of-range error on the field [row], whose message gives the
    range (1, rows).  A seat outside [1, seats_in_row] fails with the
    error on the field [seat], whose message gives the range
    (1, seats_in_row), when the row is in range.  Whenever the row or the
    seat is out of range the validator fails, and so it does at the
    boundary values row = 0, row = rows + 1, seat = 0 and
    seat = seats_in_row + 1. *)
Theorem clean_rejects_out_of_range (t : Ticket) :
  (¬ row_in_range t →
     Ticket_clean t = inl (SeatOutOfRange "row" (row_message (rows (hall_of t)))))
  ∧ (row_in_range t → ¬ seat_in_range t →
     Ticket_clean t
       = inl (SeatOutOfRange "seat" (seat_message (seats_in_row (hall_of t)))))
  ∧ (¬ row_in_range t ∨ ¬ seat_in_range t →
     ∃ field msg, Ticket_clean t = inl (SeatOutOfRange field msg))
  ∧ (row t = 0 ∨ row t = rows (hall_of t) + 1
     ∨ seat t = 0 ∨ seat t = seats_in_row (hall_of t) + 1 →
     ∃ field msg, Ticket_clean t = inl (SeatOutOfRange field msg)).
Proof.
  assert (Hfail : ¬ row_in_range t ∨ ¬ seat_in_range t →
            ∃ field msg, Ticket_clean t = inl (SeatOutOfRange field msg)).
  { intros Hout. destruct (decide (row_in_range t)) as [Hin|Hrow].
    - destruct Hout as [|Hseat]; [done|].
      eexists _, _. by apply Ticket_clean_seat_out.
    - eexists _, _. by apply Ticket_clean_row_out. }
  split; [apply Ticket_clean_row_out|].
  split; [apply Ticket_clean_seat_out|].
  split; [exact Hfail|].
  intros Hb. apply Hfail. unfold row_in_range, seat_in_range.
  destruct Hb as [?|[?|[?|?]]]; lia.
Qed.

Lemma clean_rejects_out_of_range_witness :
  Ticket_clean (new_ticket example_session example_order 11 3)
    = inl (SeatOutOfRange "row"
             "row number must be in available range: (1, rows): (1, 10)")
  ∧ Ticket_clean (new_ticket example_session example_order 3 16)
    = inl (SeatOutOfRange "seat"
             "seat number must be in available range: (1, seats_in_row): (1, 15)").
Proof.
  split.
  - apply (proj1 (clean_rejects_out_of_range
                    (new_ticket example_session example_order 11 3))).
    unfold row_in_range. simpl. lia.
  - apply (proj1 (proj2 (clean_rejects_out_of_range
                    (new_ticket example_session example_order 3 16)))).
    + unfold row_in_range. simpl. lia.
    + unfold seat_in_range. simpl. lia.
Defined.

(** C4 as stated fails: with row 11 and seat 0 in the 10 by 15 hall the
    seat lies outside [1, 15], yet the error raised does not name the
    field [seat]. *)
Lemma clean_seat_error_counterexample :
  let t := new_ticket example_session example_order 11 0 in
  ¬ seat_in_range t ∧ ¬ reports_field (Ticket_clean t) "seat".
Proof.
  intros t. split; [unfold seat_in_range; simpl; lia|].
  assert (Hrow : ¬ row_in_range t) by (unfold row_in_range; simpl; lia).
  rewrite Ticket_clean_row_out by done.
  rewrite reports_field_SeatOutOfRange. discriminate.
Qed.

(** ** [CinemaHall.capacity] *)

(** C6.  The capacity of a hall is the product of its rows and its seats
    per row; a hall of 10 rows of 15 seats has capacity 150. *)
Theorem capacity_is_rows_times_seats :
  (∀ h : CinemaHall, CinemaHall_capacity h = rows h * seats_in_row h)
  ∧ (∀ pk nm, CinemaHall_capacity
                {| hall_pk := pk; hall_name := nm; rows := 10; seats_in_row := 15 |}
              = 150).
Proof. split; reflexivity. Qed.

(** ** Facts about the storage layer *)

Lemma fresh_pk_above (ids : list Z) (x : Z) : x ∈ ids → x < fresh_pk ids.
Proof.
  unfold fresh_pk. induction ids as [|y ids IH]; simpl.
  - by rewrite elem_of_nil.
  - rewrite elem_of_cons. intros [->|Hin]; [lia|]. specialize (IH Hin). lia.
Qed.

Lemma fresh_pk_not_elem_of (ids : list Z) : fresh_pk ids ∉ ids.
Proof. intros Hin. apply fresh_pk_above in Hin. lia. Qed.

Lemma agree_on_seat_key (r1 r2 : TicketRow) :
  agree_on ["row"; "seat"; "movie_session"] r1 r2 = true
  ↔ seat_key r1 = seat_key r2.
Proof.
  unfold agree_on, seat_key, TicketRow_column. simpl.
  rewrite !andb_true_iff, !bool_decide_eq_true. split.
  - intros (Hr & Hs & Hm & _). congruence.
  - intros [= Hm Hr Hs]. by rewrite Hm, Hr, Hs.
Qed.

Lemma violated_constraint_None (r : TicketRow) (others : list TicketRow) :
  violated_constraint r others = None
  ↔ seat_key r ∉ seat_key <$> others.
Proof.
  unfold violated_constraint, Ticket_Meta_constraints. simpl.
  destruct (existsb _ others) eqn:Hex.
  - split; [done|]. intros Hnot. exfalso. apply Hnot.
    apply existsb_exists in Hex as (r' & Hin & Hagree).
    apply agree_on_seat_key in Hagree. rewrite Hagree.
    apply list_elem_of_fmap_2, list_elem_of_In, Hin.
  - split; [|done]. intros _ Hin.
    apply list_elem_of_fmap in Hin as (r' & Hkey & Hin).
    assert (existsb (agree_on ["row"; "seat"; "movie_session"] r) others = true)
      as Hyes; [|simpl in Hex; congruence].
    apply existsb_exists. exists r'. split; [by apply list_elem_of_In|].
    by apply agree_on_seat_key.
Qed.

Lemma violated_constraint_Some (r : TicketRow) (others : list TicketRow) c :
  violated_constraint r others = Some c
  → name c = "unique_ticket_constraint_name".
Proof.
  unfold violated_constraint, Ticket_Meta_constraints. simpl.
  destruct (existsb _ others); [|done]. by intros [= <-].
Qed.

Section store_row.
Context {R : Type} (id_of : R → Z).

Lemma store_row_fresh (r : R) (table : list R) :
  id_of r ∉ id_of <$> table → store_row id_of r table = table ++ [r].
Proof. intros Hfresh. unfold store_row. by rewrite bool_decide_eq_false_2. Qed.

Lemma store_row_elem_of (r : R) (table : list R) :
  r ∈ store_row id_of r table.
Proof.
  unfold store_row. case_bool_decide as Hin.
  - apply list_elem_of_fmap in Hin as (r0 & Hid & Hin).
    apply list_elem_of_fmap. exists r0. split; [|done].
    by rewrite bool_decide_eq_true_2.
  - apply elem_of_app. right. by apply list_elem_of_singleton.
Qed.

Lemma store_row_update_ids (r : R) (table : list R) :
  id_of <$> ((λ r', if bool_decide (id_of r' = id_of r) then r else r') <$> table)
  = id_of <$> table.
Proof.
  rewrite <-list_fmap_compose. apply list_fmap_ext. intros i r' _. simpl.
  by case_bool_decide.
Qed.

Lemma store_row_update_elem_of (r x : R) (table : list R) :
  x ∈ (λ r', if bool_decide (id_of r' = id_of r) then r else r') <$> table
  → x = r ∨ (x ∈ table ∧ id_of x ≠ id_of r).
Proof.
  intros Hin. apply list_elem_of_fmap in Hin as (r' & -> & Hin).
  case_bool_decide; [by left | by right].
Qed.

Lemma filter_other_ids_fresh (id : Z) (table : list R) :
  id ∉ id_of <$> table → filter (λ r', id_of r' ≠ id) table = table.
Proof.
  induction table as [|a l IH]; [done|]. rewrite fmap_cons, not_elem_of_cons.
  intros [Hne Hl]. rewrite filter_cons_True by done. by rewrite IH.
Qed.
End store_row.

Lemma Model_save_Ticket_insert ms o r s msid oid db :
  session_pk ms = Some msid → order_pk o = Some oid →
  msid ∈ ms_id <$> movie_session_table db →
  oid ∈ o_id <$> order_table db →
  (msid, r, s) ∉ seat_key <$> ticket_table db →
  Model_save_Ticket (new_ticket ms o r s) db
  = (inr {| ticket_pk := Some (fresh_pk (t_id <$> ticket_table db));
            movie_session := ms; order := o; row := r; seat := s |},
     set_ticket_table
       (ticket_table db ++
          [ {| t_id := fresh_pk (t_id <$> ticket_table db);
               t_movie_session_id := msid; t_order_id := oid;
               t_row := r; t_seat := s |} ])
       (attempt db)).
Proof.
  intros Hms Ho Hmsin Hoin Hfree. unfold Model_save_Ticket, new_ticket. simpl.
  rewrite Hms, Ho. simpl.
  rewrite !bool_decide_eq_true_2 by done. simpl.
  pose proof (fresh_pk_not_elem_of (t_id <$> ticket_table db)) as Hfresh.
  rewrite filter_other_ids_fresh by done.
  destruct (violated_constraint _ _) eqn:Hv.
  - exfalso. assert (violated_constraint
        {| t_id := fresh_pk (t_id <$> ticket_table db);
           t_movie_session_id := msid; t_order_id := oid;
           t_row := r; t_seat := s |} (ticket_table db) = None) as Hnone;
      [by apply violated_constraint_None | congruence].
  - by rewrite store_row_fresh.
Qed.

Lemma Model_save_Ticket_duplicate ms o r s msid oid db :
  session_pk ms = Some msid → order_pk o = Some oid →
  msid ∈ ms_id <$> movie_session_table db →
  oid ∈ o_id <$> order_table db →
  (msid, r, s) ∈ seat_key <$> ticket_table db →
  Model_save_Ticket (new_ticket ms o r s) db
  = (inl (IntegrityError "unique_ticket_constraint_name"), attempt db).
Proof.
  intros Hms Ho Hmsin Hoin Htaken. unfold Model_save_Ticket, new_ticket. simpl.
  rewrite Hms, Ho. simpl.
  rewrite !bool_decide_eq_true_2 by done. simpl.
  pose proof (fresh_pk_not_elem_of (t_id <$> ticket_table db)) as Hfresh.
  rewrite filter_other_ids_fresh by done.
  destruct (violated_constraint _ _) eqn:Hv.
  - by rewrite (violated_constraint_Some _ _ _ Hv).
  - apply violated_constraint_None in Hv. by destruct Hv.
Qed.

Lemma replace_row_NoDup_keys (r : TicketRow) (table : list TicketRow) :
  NoDup (t_id <$> table) → NoDup (seat_key <$> table) →
  seat_key r ∉ seat_key <$> filter (λ r', t_id r' ≠ t_id r) table →
  NoDup (seat_key <$>
           ((λ r', if bool_decide (t_id r' = t_id r) then r else r') <$> table)).
Proof.
  induction table as [|a l IH]; [constructor|].
  rewrite !fmap_cons, !NoDup_cons. intros [Hida Hids] [Hkeya Hkeys] Hfree.
  destruct (decide (t_id a = t_id r)) as [Heq|Hne].
  - rewrite bool_decide_eq_true_2 by done.
    rewrite filter_cons_False in Hfree by (intros ?; done).
    assert (t_id r ∉ t_id <$> l) as Hfresh by (by rewrite <-Heq).
    rewrite filter_other_ids_fresh in Hfree by done.
    assert ((λ r', if bool_decide (t_id r' = t_id r) then r else r') <$> l = l)
      as ->; [|done].
    rewrite <-(list_fmap_id l) at 2. apply list_fmap_ext. intros i x Hx. simpl.
    rewrite bool_decide_eq_false_2; [done|]. intros Hxid. apply Hfresh.
    rewrite <-Hxid. eapply list_elem_of_fmap_2, list_elem_of_lookup_2, Hx.
  - rewrite bool_decide_eq_false_2 by done.
    rewrite filter_cons_True, fmap_cons, not_elem_of_cons in Hfree by done.
    destruct Hfree as [Hra Hfree]. split; [|by apply IH].
    intros Hin. apply list_elem_of_fmap in Hin as (x & Hkey & Hx).
    apply store_row_update_elem_of in Hx as [->|[Hx _]]; [congruence|].
    apply Hkeya. rewrite Hkey. by apply list_elem_of_fmap_2.
Qed.

Lemma Model_save_Ticket_preserves (t : Ticket) (db : DB) :
  ticket_pk_unique db → no_double_booking db →
  ticket_pk_unique (Model_save_Ticket t db).2
  ∧ no_double_booking (Model_save_Ticket t db).2.
Proof.
  unfold ticket_pk_unique, no_double_booking, Model_save_Ticket.
  intros Hids Hkeys.
  destruct (session_pk _) as [ms|]; [|done].
  destruct (order_pk _) as [o|]; [|done].
  destruct (negb _); [done|].
  destruct (violated_constraint _ _) eqn:Hv; [done|].
  apply violated_constraint_None in Hv. simpl in *.
  set (id := default (fresh_pk (t_id <$> ticket_table db)) (ticket_pk t)) in *.
  set (r := {| t_id := id; t_movie_session_id := ms; t_order_id := o;
               t_row := row t; t_seat := seat t |}) in *.
  unfold store_row. case_bool_decide as Hin.
  - split; [by rewrite store_row_update_ids|].
    by apply replace_row_NoDup_keys.
  - change (t_id r) with id in Hin.
    rewrite filter_other_ids_fresh in Hv by done.
    rewrite !fmap_app. simpl. split.
    + apply NoDup_app. split; [done|]. split; [|apply NoDup_singleton].
      intros x Hx Hx'. apply list_elem_of_singleton in Hx'. by subst.
    + apply NoDup_app. split; [done|]. split; [|apply NoDup_singleton].
      intros x Hx Hx'. apply list_elem_of_singleton in Hx'. by subst.
Qed.

(** ** Collecting errors *)

Lemma update_error_dict_lookup_new (e errors : ErrorDict) f msgs :
  e !! f = Some msgs →
  ∃ old, update_error_dict e errors !! f = Some (old ++ msgs).
Proof.
  intros He. unfold update_error_dict. rewrite lookup_union_with, He.
  destruct (errors !! f) as [old|]; simpl; [by exists old | by exists []].
Qed.

Lemma update_error_dict_lookup_old (e errors : ErrorDict) f msgs :
  errors !! f = Some msgs →
  ∃ new, update_error_dict e errors !! f = Some (msgs ++ new).
Proof.
  intros He. unfold update_error_dict. rewrite lookup_union_with, He.
  destruct (e !! f) as [new|]; simpl; [by exists new|].
  exists []. by rewrite app_nil_r.
Qed.

(** ** The save path of a ticket *)

Section ticket_save.
Context `{ModelValidation}.

Lemma full_clean_finish_raises errors t db f msgs :
  errors !! f = Some msgs →
  ∃ d new, full_clean_finish errors t db = inl (ValidationError d None)
           ∧ d !! f = Some (msgs ++ new).
Proof.
  intros Hf. unfold full_clean_finish.
  destruct (update_error_dict_lookup_old
              (validate_unique (dom errors ∖ {[NON_FIELD_ERRORS]}) t db)
              errors f msgs Hf) as [new Hnew].
  rewrite bool_decide_eq_false_2.
  - by eexists _, new.
  - intros Hempty. by rewrite Hempty, lookup_empty in Hnew.
Qed.

Lemma full_clean_raises_clean_error t db field msg :
  Ticket_clean t = inl (SeatOutOfRange field msg) →
  ∃ d before after,
    Ticket_full_clean t db = inl (ValidationError d None)
    ∧ d !! field = Some (before ++ msg :: after).
Proof.
  intros Hclean. unfold Ticket_full_clean. rewrite Hclean.
  unfold SeatOutOfRange.
  destruct (update_error_dict_lookup_new {[field := [msg]]}
              (update_error_dict (clean_fields t db) ∅) field [msg])
    as [before Hbefore]; [apply lookup_singleton_eq|].
  destruct (full_clean_finish_raises _ t db _ _ Hbefore)
    as (d & after & Hraise & Hd).
  exists d, before, after. split; [done|].
  by rewrite Hd, <-app_assoc.
Qed.

Lemma Ticket_clean_error_shape t e :
  Ticket_clean t = inl e → ∃ field msg, e = SeatOutOfRange field msg.
Proof.
  intros Hclean. destruct (decide (row_in_range t)) as [Hrow|Hrow].
  - destruct (decide (seat_in_range t)) as [Hseat|Hseat].
    + by rewrite Ticket_clean_in_range in Hclean.
    + rewrite Ticket_clean_seat_out in Hclean by done.
      eexists _, _. by simplify_eq.
  - rewrite Ticket_clean_row_out in Hclean by done.
    eexists _, _. by simplify_eq.
Qed.

Lemma Ticket_save_tables t db :
  ticket_pk_unique db → no_double_booking db →
  ticket_pk_unique (Ticket_save t db).2 ∧ no_double_booking (Ticket_save t db).2.
Proof.
  intros Hids Hkeys. unfold Ticket_save.
  destruct (Ticket_full_clean t db); [done|].
  by apply Model_save_Ticket_preserves.
Qed.

(** C5.  [Ticket.save] runs the validation before the write.  A failure
    of [Ticket.clean] makes [save] raise a [ValidationError] that holds
    the message of [clean] under its field, and leaves the store as it
    was, with no write statement issued; the same holds for any failure
    of [full_clean]; and a [save] that reached the storage engine is the
    [save] of a ticket that passed [clean]. *)
Theorem save_validates_before_write (t : Ticket) (db : DB) :
  (∀ e, Ticket_clean t = inl e →
     ∃ field msg d before after,
       e = SeatOutOfRange field msg
       ∧ Ticket_save t db = (inl (ValidationError d None), db)
       ∧ d !! field = Some (before ++ msg :: after))
  ∧ (∀ e, Ticket_full_clean t db = inl e → Ticket_save t db = (inl e, db))
  ∧ ((Ticket_save t db).2 ≠ db →
     Ticket_clean t = inr tt ∧ Ticket_full_clean t db = inr tt).
Proof.
  assert (Hfull : ∀ e, Ticket_full_clean t db = inl e →
                       Ticket_save t db = (inl e, db)).
  { intros e He. unfold Ticket_save. by rewrite He. }
  split; [|split; [exact Hfull|]].
  - intros e Hclean.
    destruct (Ticket_clean_error_shape t e Hclean) as (field & msg & ->).
    destruct (full_clean_raises_clean_error t db field msg Hclean)
      as (d & before & after & Hraise & Hd).
    exists field, msg, d, before, after. by rewrite (Hfull _ Hraise).
  - intros Hwrite.
    destruct (Ticket_full_clean t db) as [e|[]] eqn:Hfc.
    { rewrite (Hfull e eq_refl) in Hwrite. by destruct Hwrite. }
    split; [|done].
    destruct (Ticket_clean t) as [e|[]] eqn:Hclean; [|done].
    destruct (Ticket_clean_error_shape t e Hclean) as (field & msg & ->).
    destruct (full_clean_raises_clean_error t db field msg Hclean)
      as (d & ? & ? & Hraise & _).
    congruence.
Qed.
End ticket_save.

(** ** A second ticket for a seat *)

Lemma update_error_dict_empty_r (e : ErrorDict) : update_error_dict e ∅ = e.
Proof.
  unfold update_error_dict. apply map_eq. intros f.
  rewrite lookup_union_with, lookup_empty. by destruct (e !! f).
Qed.

Lemma integer_field_errors_fits (z : Z) :
  fits_integer_column z = true → integer_field_errors z = [].
Proof.
  unfold fits_integer_column, integer_field_errors.
  intros [Hlo Hhi]%andb_true_iff. apply Z.leb_le in Hlo, Hhi.
  rewrite (proj2 (Z.ltb_ge _ _) Hlo), (proj2 (Z.ltb_ge _ _) Hhi). done.
Qed.

Lemma django_clean_fields_new ms o r s msid oid db :
  session_pk ms = Some msid → msid ∈ ms_id <$> movie_session_table db →
  order_pk o = Some oid → oid ∈ o_id <$> order_table db →
  fits_integer_column r = true → fits_integer_column s = true →
  django_clean_fields (new_ticket ms o r s) db = ∅.
Proof.
  intros Hms Hmsin Ho Hoin Hr Hs. unfold django_clean_fields, new_ticket. simpl.
  rewrite Hms, Ho. unfold foreign_key_errors.
  rewrite !bool_decide_eq_true_2 by done.
  rewrite !integer_field_errors_fits by done. reflexivity.
Qed.

Lemma breaks_unique_new (exclude : gset string) ms o r s msid db :
  session_pk ms = Some msid →
  "row" ∉ exclude → "seat" ∉ exclude → "movie_session" ∉ exclude →
  breaks_unique exclude
    {| fields := ["row"; "seat"; "movie_session"];
       name := "unique_ticket_constraint_name" |}
    (new_ticket ms o r s) db
  = bool_decide ((msid, r, s) ∈ seat_key <$> ticket_table db).
Proof.
  intros Hms Hrow Hseat Hsession.
  unfold breaks_unique, new_ticket, Ticket_lookup_value, TicketRow_column. simpl.
  rewrite Hms. rewrite !bool_decide_eq_true_2 by (done || by eexists). simpl.
  apply eq_true_iff_eq. rewrite existsb_exists, bool_decide_eq_true. split.
  - intros (x & Hx & Hagree).
    rewrite !andb_true_iff, !bool_decide_eq_true in Hagree.
    destruct Hagree as (Hr & Hs & Hm & _).
    apply list_elem_of_fmap. exists x. split; [|by apply list_elem_of_In].
    unfold seat_key. congruence.
  - intros (x & Hkey & Hx)%list_elem_of_fmap.
    exists x. split; [by apply list_elem_of_In|].
    unfold seat_key in Hkey. injection Hkey as Hm Hr Hs.
    rewrite !andb_true_iff, !bool_decide_eq_true. by rewrite <-Hm, <-Hr, <-Hs.
Qed.

Lemma django_full_clean_new ms o r s msid oid db :
  session_pk ms = Some msid → msid ∈ ms_id <$> movie_session_table db →
  order_pk o = Some oid → oid ∈ o_id <$> order_table db →
  (1 ≤ r ∧ r ≤ rows (cinema_hall ms)) →
  (1 ≤ s ∧ s ≤ seats_in_row (cinema_hall ms)) →
  fits_integer_column r = true → fits_integer_column s = true →
  @Ticket_full_clean django_validation (new_ticket ms o r s) db
  = if bool_decide ((msid, r, s) ∈ seat_key <$> ticket_table db)
    then inl (ValidationError
                {[ NON_FIELD_ERRORS :=
                     ["Ticket with this Row, Seat and Movie session already exists."] ]}
                None)
    else inr tt.
Proof.
  intros Hms Hmsin Ho Hoin Hrow Hseat Hr Hs. unfold Ticket_full_clean. simpl.
  rewrite (django_clean_fields_new ms o r s msid oid) by done.
  rewrite update_error_dict_empty_r.
  rewrite Ticket_clean_in_range by done.
  unfold full_clean_finish. simpl. rewrite dom_empty_L.
  unfold django_validate_unique, Ticket_Meta_constraints. simpl.
  rewrite (breaks_unique_new _ ms o r s msid) by (done || set_solver).
  rewrite !update_error_dict_empty_r.
  destruct (bool_decide ((msid, r, s) ∈ seat_key <$> ticket_table db));
    vm_compute; reflexivity.
Qed.

(** C2, as the code has it.  No seat of a session is ever stored for two
    tickets: the write behind [save] keeps, on its own, the triples
    (movie_session, row, seat) of the stored tickets distinct, and so does
    [save] under any inherited validation.  When a new ticket for a free
    seat is valid, its [save] succeeds and stores the row.  The [save] of
    a second new ticket for the same session, row and seat then fails,
    with the store as it was and no write attempted: the ticket passes
    [Ticket.clean], and the error is the [ValidationError] that the
    uniqueness step of [full_clean] raises for the declared constraint,
    filed under [__all__].  The constraint of the storage engine refuses
    the same ticket with [IntegrityError] when the write itself is
    reached. *)
Theorem duplicate_seat_rejected
    (db : DB) (ms : MovieSession) (o1 o2 : Order) (r s msid oid1 oid2 : Z) :
  (∀ (fw : ModelValidation) t, ticket_pk_unique db → no_double_booking db →
     (ticket_pk_unique (Model_save_Ticket t db).2
      ∧ no_double_booking (Model_save_Ticket t db).2)
     ∧ (ticket_pk_unique (@Ticket_save fw t db).2
        ∧ no_double_booking (@Ticket_save fw t db).2))
  ∧ (session_pk ms = Some msid → msid ∈ ms_id <$> movie_session_table db →
     order_pk o1 = Some oid1 → oid1 ∈ o_id <$> order_table db →
     order_pk o2 = Some oid2 → oid2 ∈ o_id <$> order_table db →
     (1 ≤ r ∧ r ≤ rows (cinema_hall ms)) →
     (1 ≤ s ∧ s ≤ seats_in_row (cinema_hall ms)) →
     fits_integer_column r = true → fits_integer_column s = true →
     (msid, r, s) ∉ seat_key <$> ticket_table db →
     ∃ t1 db1,
       @Ticket_save django_validation (new_ticket ms o1 r s) db = (inr t1, db1)
       ∧ (∃ id1, ticket_pk t1 = Some id1
                 ∧ ticket_table db1
                   = ticket_table db ++
                       [ {| t_id := id1; t_movie_session_id := msid;
                            t_order_id := oid1; t_row := r; t_seat := s |} ])
       ∧ Ticket_clean (new_ticket ms o2 r s) = inr tt
       ∧ @Ticket_save django_validation (new_ticket ms o2 r s) db1
         = (inl (ValidationError
                   {[ NON_FIELD_ERRORS :=
                        ["Ticket with this Row, Seat and Movie session already exists."] ]}
                   None),
            db1)
       ∧ Model_save_Ticket (new_ticket ms o2 r s) db1
         = (inl (IntegrityError "unique_ticket_constraint_name"), attempt db1)).
Proof.
  split.
  { intros fw t Hids Hkeys. split.
    - by apply Model_save_Ticket_preserves.
    - by apply (@Ticket_save_tables fw). }
  intros Hms Hmsin Ho1 Ho1in Ho2 Ho2in Hrow Hseat Hr Hs Hfree.
  pose proof (Model_save_Ticket_insert ms o1 r s msid oid1 db
                Hms Ho1 Hmsin Ho1in Hfree) as Hfirst.
  eexists _, _. split.
  { unfold Ticket_save.
    rewrite (django_full_clean_new ms o1 r s msid oid1) by done.
    rewrite bool_decide_eq_false_2 by done. exact Hfirst. }
  split; [by eexists|]. simpl.
  set (db1 := set_ticket_table _ (attempt db)).
  assert (Htaken : (msid, r, s) ∈ seat_key <$> ticket_table db1).
  { subst db1. simpl. rewrite fmap_app. apply elem_of_app. right.
    by apply list_elem_of_singleton. }
  split; [by apply Ticket_clean_in_range|]. split.
  - unfold Ticket_save.
    rewrite (django_full_clean_new ms o2 r s msid oid2) by done.
    by rewrite bool_decide_eq_true_2.
  - by apply (Model_save_Ticket_duplicate ms o2 r s msid oid2).
Qed.


(** ** The default ordering of orders *)

Lemma compare_column_antisym (a b : option Z) :
  compare_column b a = CompOpp (compare_column a b).
Proof. destruct a, b; simpl; try done. apply Z.compare_antisym. Qed.

Lemma compare_key_antisym (key : string) (r1 r2 : OrderRow) :
  compare_key key r2 r1 = CompOpp (compare_key key r1 r2).
Proof.
  unfold compare_key. destruct (get_order_dir key) as [f [|]].
  - f_equal. apply compare_column_antisym.
  - apply compare_column_antisym.
Qed.

Lemma compare_by_antisym (keys : list string) (r1 r2 : OrderRow) :
  compare_by keys r2 r1 = CompOpp (compare_by keys r1 r2).
Proof.
  induction keys as [|k ks IH]; [done|]. simpl.
  rewrite (compare_key_antisym k r1 r2).
  by destruct (compare_key k r1 r2).
Qed.

Lemma precedes_total (keys : list string) : Total (precedes keys).
Proof.
  intros r1 r2. unfold precedes. rewrite (compare_by_antisym keys r1 r2).
  destruct (compare_by keys r1 r2); simpl; auto.
Qed.

Lemma precedes_default_ordering (r1 r2 : OrderRow) :
  precedes Order_Meta_ordering r1 r2 ↔ o_created_at r2 ≤ o_created_at r1.
Proof.
  unfold precedes, Order_Meta_ordering, compare_by, compare_key. simpl.
  unfold OrderRow_column. simpl.
  destruct (Z.compare_spec (o_created_at r1) (o_created_at r2)); simpl;
    split; (done || lia).
Qed.

Lemma created_at_desc_trans : Transitive created_at_desc.
Proof.
  intros o1 o2 o3 (a & b & Ha & Hb & Hab) (b' & c & Hb' & Hc & Hbc).
  exists a, c. repeat split; try done. simplify_eq. lia.
Qed.

Lemma Order_objects_all_sorted (db : DB) :
  StronglySorted created_at_desc (Order_objects_all db).
Proof.
  apply (@Sorted_StronglySorted _ _ created_at_desc_trans).
  unfold Order_objects_all.
  eapply Sorted_fmap;
    [|apply (@Sorted_merge_sort _ _ _ (precedes_total Order_Meta_ordering))].
  intros r1 r2 Hle. apply precedes_default_ordering in Hle.
  by exists (o_created_at r1), (o_created_at r2).
Qed.

Lemma Order_objects_all_created_at (db : DB) :
  created_at <$> Order_objects_all db
  = Some <$> (o_created_at <$>
                merge_sort (precedes Order_Meta_ordering) (order_table db)).
Proof.
  unfold Order_objects_all. rewrite <-!list_fmap_compose.
  by apply list_fmap_ext.
Qed.

(** C7.  [Order.objects.all()] lists exactly the stored orders, most
    recent first: whatever the store holds, every order of the listing is
    at least as recent as all those after it; and when the stored orders
    were created at times T1 < T2 < T3, in whatever order the table keeps
    them, the listing shows T3, T2, T1. *)
Theorem orders_listed_most_recent_first (db : DB) :
  Order_objects_all db ≡ₚ Order_of_row <$> order_table db
  ∧ StronglySorted created_at_desc (Order_objects_all db)
  ∧ ∀ T1 T2 T3,
      T1 < T2 → T2 < T3 →
      o_created_at <$> order_table db ≡ₚ [T1; T2; T3] →
      created_at <$> Order_objects_all db = [Some T3; Some T2; Some T1].
Proof.
  split; [|split].
  - unfold Order_objects_all. by rewrite merge_sort_Permutation.
  - apply Order_objects_all_sorted.
  - intros T1 T2 T3 H12 H23 Hperm.
    rewrite Order_objects_all_created_at.
    set (sorted := merge_sort (precedes Order_Meta_ordering) (order_table db)).
    assert (o_created_at <$> sorted = [T3; T2; T1]) as ->; [|done].
    apply (StronglySorted_unique_strong (flip Z.le)).
    + intros x y _ _. unfold flip. lia.
    + apply Sorted_StronglySorted; [intros x y z; unfold flip; lia|].
      eapply Sorted_fmap;
        [|apply (@Sorted_merge_sort _ _ _ (precedes_total Order_Meta_ordering))].
      intros r1 r2 Hle. by apply precedes_default_ordering in Hle.
    + repeat constructor; unfold flip; lia.
    + subst sorted. rewrite merge_sort_Permutation, Hperm.
      change [T3; T2; T1] with (reverse [T1; T2; T3]).
      by rewrite reverse_Permutation.
Qed.

Lemma orders_listed_most_recent_first_witness :
  let db1 := (Order_objects_create 10 7 empty_db).2 in
  let db2 := (Order_objects_create 20 8 db1).2 in
  let db3 := (Order_objects_create 30 7 db2).2 in
  created_at <$> Order_objects_all db3 = [Some 30; Some 20; Some 10].
Proof.
  intros db1 db2 db3.
  apply (proj2 (proj2 (orders_listed_most_recent_first db3)) 10 20 30).
  - lia.
  - lia.
  - reflexivity.
Defined.

(** ** Cascading deletes *)

(** C8.  Deleting a movie session removes that session and exactly the
    tickets that refer to it; deleting an order removes that order and
    exactly the tickets that refer to it.  Every other ticket stays, in
    place, and the other tables are not touched. *)
Theorem delete_cascades_to_tickets (db : DB) :
  (∀ s id, session_pk s = Some id →
     ∃ db', MovieSession_delete s db = (inr tt, db')
       ∧ ticket_table db'
         = filter (λ r, t_movie_session_id r ≠ id) (ticket_table db)
       ∧ (∀ r, r ∈ ticket_table db'
               ↔ r ∈ ticket_table db ∧ t_movie_session_id r ≠ id)
       ∧ movie_session_table db'
         = filter (λ r, ms_id r ≠ id) (movie_session_table db)
       ∧ order_table db' = order_table db
       ∧ cinema_hall_table db' = cinema_hall_table db)
  ∧ (∀ o id, order_pk o = Some id →
     ∃ db', Order_delete o db = (inr tt, db')
       ∧ ticket_table db' = filter (λ r, t_order_id r ≠ id) (ticket_table db)
       ∧ (∀ r, r ∈ ticket_table db'
               ↔ r ∈ ticket_table db ∧ t_order_id r ≠ id)
       ∧ order_table db' = filter (λ r, o_id r ≠ id) (order_table db)
       ∧ movie_session_table db' = movie_session_table db
       ∧ cinema_hall_table db' = cinema_hall_table db).
Proof.
  split.
  - intros s id Hpk. unfold MovieSession_delete. rewrite Hpk.
    unfold Ticket_movie_session_on_delete, on_parent_delete.
    eexists. split; [reflexivity|]. simpl. split; [done|].
    split; [|done]. intros r. rewrite list_elem_of_filter. tauto.
  - intros o id Hpk. unfold Order_delete. rewrite Hpk.
    unfold Ticket_order_on_delete, on_parent_delete.
    eexists. split; [reflexivity|]. simpl. split; [done|].
    split; [|done]. intros r. rewrite list_elem_of_filter. tauto.
Qed.

Lemma delete_cascades_to_tickets_witness :
  let db :=
    set_ticket_table
      [ {| t_id := 1; t_movie_session_id := 1; t_order_id := 1; t_row := 2; t_seat := 3 |};
        {| t_id := 2; t_movie_session_id := 5; t_order_id := 1; t_row := 2; t_seat := 3 |} ]
      example_db in
  ∃ db', MovieSession_delete example_session db = (inr tt, db')
    ∧ ticket_table db'
      = [ {| t_id := 2; t_movie_session_id := 5; t_order_id := 1; t_row := 2; t_seat := 3 |} ]
    ∧ movie_session_table db' = [].
Proof.
  intros db.
  destruct (proj1 (delete_cascades_to_tickets db) example_session 1)
    as (db' & Hdel & Htickets & _ & Hsessions & _).
  - reflexivity.
  - exists db'. split; [exact Hdel|]. split.
    + rewrite Htickets. reflexivity.
    + rewrite Hsessions. reflexivity.
Defined.

(** ** Hall dimensions *)

(** C9, as the code has it.  [rows] and [seats_in_row] are plain integer
    fields and nothing constrains their sign: saving a hall, new or
    already stored, whose dimensions are integers the column holds, zero
    and negative ones included, succeeds and stores a row with exactly
    those dimensions. *)
Theorem hall_dimensions_unconstrained (h : CinemaHall) (db : DB) :
  fits_integer_column (rows h) = true →
  fits_integer_column (seats_in_row h) = true →
  from_option fits_integer_column true (hall_pk h) = true →
  ∃ id db',
    CinemaHall_save h db
    = (inr {| hall_pk := Some id; hall_name := hall_name h;
              rows := rows h; seats_in_row := seats_in_row h |}, db')
    ∧ {| ch_id := id; ch_name := hall_name h;
         ch_rows := rows h; ch_seats_in_row := seats_in_row h |}
      ∈ cinema_hall_table db'.
Proof.
  intros Hrows Hseats Hpk. unfold CinemaHall_save.
  rewrite Hrows, Hseats, Hpk. simpl.
  eexists _, _. split; [reflexivity|]. simpl.
  apply (store_row_elem_of ch_id).
Qed.

Lemma hall_dimensions_unconstrained_witness :
  let h := {| hall_pk := Some 1; hall_name := "Blue"; rows := -10; seats_in_row := 0 |} in
  ∃ id db',
    CinemaHall_save h example_db = (inr h, db')
    ∧ {| ch_id := id; ch_name := "Blue"; ch_rows := -10; ch_seats_in_row := 0 |}
      ∈ cinema_hall_table db'.
Proof.
  intros h.
  destruct (hall_dimensions_unconstrained h example_db)
    as (id & db' & Hsave & Hin).
  - reflexivity.
  - reflexivity.
  - reflexivity.
  - exists id, db'. split; [|exact Hin].
    rewrite Hsave. vm_compute in Hsave. by injection Hsave as <- _.
Defined.

(** C9 as stated fails: a hall of 0 rows and -3 seats per row is created
    in the empty store and persisted as it is. *)
Lemma hall_dimensions_counterexample :
  let h := {| hall_pk := None; hall_name := "Void"; rows := 0; seats_in_row := -3 |} in
  ∃ r, r ∈ cinema_hall_table (CinemaHall_save h empty_db).2
       ∧ ¬ (0 < ch_rows r ∧ 0 < ch_seats_in_row r).
Proof.
  intros h.
  exists {| ch_id := 1; ch_name := "Void"; ch_rows := 0; ch_seats_in_row := -3 |}.
  split.
  - vm_compute. apply list_elem_of_here.
  - simpl. lia.
Qed.

(** ** Worked examples of the save path *)

Lemma save_validates_before_write_witness :
  ∃ d, @Ticket_save django_validation
         (new_ticket example_session example_order 0 0) example_db
       = (inl (ValidationError d None), example_db)
       ∧ d !! "row"
         = Some ["row number must be in available range: (1, rows): (1, 10)"].
Proof.
  destruct (proj1 (@save_validates_before_write django_validation
              (new_ticket example_session example_order 0 0) example_db)
              (SeatOutOfRange "row"
                 "row number must be in available range: (1, rows): (1, 10)"))
    as (field & msg & d & before & after & Hshape & Hsave & Hd).
  - vm_compute. reflexivity.
  - exists d. split; [exact Hsave|].
    vm_compute in Hsave. injection Hsave as Heq. subst d.
    vm_compute. reflexivity.
Defined.

Lemma duplicate_seat_rejected_witness :
  ∃ t1 db1,
    @Ticket_save django_validation
      (new_ticket example_session example_order 3 4) example_db = (inr t1, db1)
    ∧ (∃ d, @Ticket_save django_validation
              (new_ticket example_session example_order 3 4) db1
            = (inl (ValidationError d None), db1)
            ∧ is_Some (d !! NON_FIELD_ERRORS)).
Proof.
  destruct (proj2 (duplicate_seat_rejected example_db
              example_session example_order example_order 3 4 1 1 1))
    as (t1 & db1 & Hfirst & _ & _ & Hsecond & _).
  - reflexivity.
  - simpl. apply list_elem_of_here.
  - reflexivity.
  - simpl. apply list_elem_of_here.
  - reflexivity.
  - simpl. apply list_elem_of_here.
  - simpl. lia.
  - simpl. lia.
  - reflexivity.
  - reflexivity.
  - simpl. apply not_elem_of_nil.
  - exists t1, db1. split; [exact Hfirst|].
    eexists. split; [exact Hsecond|].
    rewrite lookup_singleton_eq. by eexists.
Defined.

(** C2 as stated fails: the second [save] of a ticket for row 3, seat 4 of
    the example session is not refused by the storage engine at write
    time.  The uniqueness step of [full_clean] raises first, and no write
    is attempted. *)
Lemma duplicate_seat_precheck_counterexample :
  let t := new_ticket example_session example_order 3 4 in
  let db1 := (@Ticket_save django_validation t example_db).2 in
  (∃ t1, (@Ticket_save django_validation t example_db).1 = inr t1)
  ∧ @Ticket_save django_validation t db1
    = (inl (ValidationError
              {[ NON_FIELD_ERRORS :=
                   ["Ticket with this Row, Seat and Movie session already exists."] ]}
              None),
       db1)
  ∧ @Ticket_save django_validation t db1
    ≠ (inl (IntegrityError "unique_ticket_constraint_name"), attempt db1)
  ∧ write_attempts (@Ticket_save django_validation t db1).2 = write_attempts db1.
Proof.
  intros t db1.
  assert (Hsecond : @Ticket_save django_validation t db1
    = (inl (ValidationError
              {[ NON_FIELD_ERRORS :=
                   ["Ticket with this Row, Seat and Movie session already exists."] ]}
              None),
       db1)) by (vm_compute; reflexivity).
  split; [eexists; vm_compute; reflexivity|].
  split; [exact Hsecond|]. rewrite Hsecond. split; [discriminate|done].
Qed.

(** * Further properties of the models *)

(** ** The validator and the capacity of a hall *)

Lemma Ticket_clean_ok_iff (t : Ticket) :
  Ticket_clean t = inr tt ↔ row_in_range t ∧ seat_in_range t.
Proof.
  split; [|intros [??]; by apply Ticket_clean_in_range].
  intros Hok. destruct (decide (row_in_range t)) as [Hrow|Hrow].
  - destruct (decide (seat_in_range t)) as [Hseat|Hseat]; [done|].
    by rewrite Ticket_clean_seat_out in Hok.
  - by rewrite Ticket_clean_row_out in Hok.
Qed.

Lemma elem_of_hall_seats (hall : CinemaHall) (r s : Z) :
  (r, s) ∈ hall_seats hall
  ↔ (1 ≤ r ∧ r ≤ rows hall) ∧ (1 ≤ s ∧ s ≤ seats_in_row hall).
Proof.
  unfold hall_seats. rewrite list_elem_of_In, in_prod_iff.
  rewrite <-!list_elem_of_In, !elem_of_seqZ. lia.
Qed.

Lemma NoDup_list_prod {A B} (l : list A) (k : list B) :
  NoDup l → NoDup k → NoDup (list_prod l k).
Proof.
  intros Hl Hk. induction Hl as [|x l Hx Hl IH]; simpl; [constructor|].
  apply NoDup_app. split; [|split; [|done]].
  - by apply (NoDup_fmap_2 (pair x)).
  - intros [a b] Hin Hin'. apply list_elem_of_fmap in Hin as (y & [= -> ->] & _).
    apply list_elem_of_In, in_prod_iff in Hin' as [Hin' _].
    by apply Hx, list_elem_of_In.
Qed.

Lemma length_hall_seats (hall : CinemaHall) :
  length (hall_seats hall)
  = (Z.to_nat (rows hall) * Z.to_nat (seats_in_row hall))%nat.
Proof. unfold hall_seats. by rewrite length_prod, !length_seqZ. Qed.

(** X1.  The tickets the validator accepts in a hall are those on the
    seats (1, 1) to (rows, seats_in_row); these seats are pairwise
    distinct, and when neither dimension is negative there are exactly
    [capacity] of them. *)
Theorem clean_accepts_capacity_many_seats (hall : CinemaHall) :
  (∀ t, hall_of t = hall →
     (Ticket_clean t = inr tt ↔ (row t, seat t) ∈ hall_seats hall))
  ∧ NoDup (hall_seats hall)
  ∧ (0 ≤ rows hall → 0 ≤ seats_in_row hall →
     Z.of_nat (length (hall_seats hall)) = CinemaHall_capacity hall).
Proof.
  split; [|split].
  - intros t <-. rewrite Ticket_clean_ok_iff, elem_of_hall_seats. done.
  - apply NoDup_list_prod; apply NoDup_seqZ.
  - intros Hr Hs. rewrite length_hall_seats. unfold CinemaHall_capacity. lia.
Qed.

Lemma clean_accepts_capacity_many_seats_witness :
  (Ticket_clean (new_ticket example_session example_order 10 15) = inr tt
   ↔ (10, 15) ∈ hall_seats example_hall)
  ∧ Z.of_nat (length (hall_seats example_hall)) = 150.
Proof.
  pose proof (clean_accepts_capacity_many_seats example_hall) as (Hiff & _ & Hlen).
  split.
  - apply (Hiff (new_ticket example_session example_order 10 15)). reflexivity.
  - apply Hlen; simpl; lia.
Defined.

(** X2.  A hall with fewer than one row or fewer than one seat per row
    accepts no ticket at all; this includes a hall whose two dimensions
    are negative, although its capacity is then positive. *)
Theorem degenerate_hall_rejects_every_ticket (hall : CinemaHall) :
  (rows hall < 1 ∨ seats_in_row hall < 1 →
     ∀ t, hall_of t = hall →
       ∃ field msg, Ticket_clean t = inl (SeatOutOfRange field msg))
  ∧ (rows hall < 0 → seats_in_row hall < 0 → 0 < CinemaHall_capacity hall).
Proof.
  split.
  - intros Hdim t <-. destruct (decide (row_in_range t)) as [Hrow|Hrow].
    + eexists _, _. apply Ticket_clean_seat_out; [done|].
      unfold row_in_range, seat_in_range in *. lia.
    + eexists _, _. by apply Ticket_clean_row_out.
  - intros Hr Hs. unfold CinemaHall_capacity. nia.
Qed.

Lemma degenerate_hall_rejects_every_ticket_witness :
  let hall := {| hall_pk := Some 2; hall_name := "Void";
                 rows := -2; seats_in_row := -3 |} in
  let session := {| session_pk := Some 2; show_time := 0;
                    cinema_hall := hall; movie := 1 |} in
  (∃ field msg, Ticket_clean (new_ticket session example_order 1 1)
                = inl (SeatOutOfRange field msg))
  ∧ 0 < CinemaHall_capacity hall.
Proof.
  intros hall session.
  pose proof (degenerate_hall_rejects_every_ticket hall) as [Hreject Hcap].
  split.
  - apply Hreject; [simpl; lia | reflexivity].
  - apply Hcap; simpl; lia.
Defined.

(** ** What a successful save has done *)

Lemma elem_of_store_row {R} (id_of : R → Z) (r x : R) (table : list R) :
  x ∈ store_row id_of r table
  ↔ x = r ∨ (x ∈ table ∧ id_of x ≠ id_of r).
Proof.
  split.
  - unfold store_row. case_bool_decide as Hin.
    + apply store_row_update_elem_of.
    + rewrite elem_of_app, list_elem_of_singleton. intros [Hx| ->]; [|by left].
      right. split; [done|]. intros Heq. apply Hin. rewrite <-Heq.
      by apply list_elem_of_fmap_2.
  - intros [-> |[Hx Hne]]; [apply store_row_elem_of|].
    unfold store_row. case_bool_decide.
    + apply list_elem_of_fmap. exists x. split; [|done].
      by rewrite bool_decide_eq_false_2.
    + apply elem_of_app. by left.
Qed.

Lemma Model_save_Ticket_success (t t' : Ticket) (db db' : DB) :
  Model_save_Ticket t db = (inr t', db') →
  ∃ id msid oid,
    session_pk (movie_session t) = Some msid
    ∧ order_pk (order t) = Some oid
    ∧ msid ∈ ms_id <$> movie_session_table db
    ∧ oid ∈ o_id <$> order_table db
    ∧ id = default (fresh_pk (t_id <$> ticket_table db)) (ticket_pk t)
    ∧ ((msid, row t, seat t)
         ∉ seat_key <$> filter (λ r', t_id r' ≠ id) (ticket_table db))
    ∧ t' = {| ticket_pk := Some id; movie_session := movie_session t;
              order := order t; row := row t; seat := seat t |}
    ∧ db' = set_ticket_table
              (store_row t_id
                 {| t_id := id; t_movie_session_id := msid; t_order_id := oid;
                    t_row := row t; t_seat := seat t |}
                 (ticket_table db))
              (attempt db).
Proof.
  unfold Model_save_Ticket.
  destruct (session_pk _) as [msid|]; [|done].
  destruct (order_pk _) as [oid|]; [|done].
  destruct (bool_decide (msid ∈ _)) eqn:Hms; [|done].
  destruct (bool_decide (oid ∈ _)) eqn:Ho; [|done]. simpl.
  destruct (violated_constraint _ _) eqn:Hv; [done|].
  intros [= <- <-]. apply violated_constraint_None in Hv.
  apply bool_decide_eq_true in Hms, Ho.
  by eexists _, msid, oid.
Qed.

Section save_outcome.
Context `{ModelValidation}.

Lemma Ticket_save_inr (t t' : Ticket) (db db' : DB) :
  Ticket_save t db = (inr t', db') →
  Ticket_clean t = inr tt ∧ Model_save_Ticket t db = (inr t', db').
Proof.
  unfold Ticket_save. destruct (Ticket_full_clean t db) as [e|[]] eqn:Hfc; [done|].
  intros Hsave. split; [|done].
  destruct (Ticket_clean t) as [e|[]] eqn:Hclean; [|done].
  destruct (Ticket_clean_error_shape t e Hclean) as (field & msg & ->).
  destruct (full_clean_raises_clean_error t db field msg Hclean)
    as (d & ? & ? & Hraise & _).
  congruence.
Qed.

Lemma Ticket_save_inl (t : Ticket) (e : Exception) (db db' : DB) :
  Ticket_save t db = (inl e, db') → db' = db ∨ db' = attempt db.
Proof.
  unfold Ticket_save. destruct (Ticket_full_clean t db); [intros [= _ <-]; by left|].
  unfold Model_save_Ticket. repeat case_match; intros [= _ <-]; auto.
Qed.

(** X3.  A [save] that succeeds was the [save] of a ticket whose row and
    seat are inside the hall of its session and whose session and order
    are stored.  It returns the same ticket under the key it had, or under
    a key that no stored ticket has when it had none.  A ticket whose key
    is stored replaces the row with that key, in place; any other ticket
    is added as a new row after the stored ones.  The other tables are as
    before. *)
Theorem save_stores_validated_ticket (t t' : Ticket) (db db' : DB) :
  Ticket_save t db = (inr t', db') →
  (row_in_range t ∧ seat_in_range t)
  ∧ ∃ id msid oid,
      t' = {| ticket_pk := Some id; movie_session := movie_session t;
              order := order t; row := row t; seat := seat t |}
      ∧ session_pk (movie_session t) = Some msid
      ∧ msid ∈ ms_id <$> movie_session_table db
      ∧ order_pk (order t) = Some oid
      ∧ oid ∈ o_id <$> order_table db
      ∧ (ticket_pk t = None →
         (id ∉ t_id <$> ticket_table db)
         ∧ ticket_table db'
           = ticket_table db ++
               [ {| t_id := id; t_movie_session_id := msid;
                    t_order_id := oid; t_row := row t; t_seat := seat t |} ])
      ∧ (∀ k, ticket_pk t = Some k →
         id = k ∧ t' = t
         ∧ (k ∈ t_id <$> ticket_table db →
            ticket_table db'
            = (λ x, if bool_decide (t_id x = k)
                    then {| t_id := k; t_movie_session_id := msid;
                            t_order_id := oid; t_row := row t; t_seat := seat t |}
                    else x) <$> ticket_table db)
         ∧ (k ∉ t_id <$> ticket_table db →
            ticket_table db'
            = ticket_table db ++
                [ {| t_id := k; t_movie_session_id := msid;
                     t_order_id := oid; t_row := row t; t_seat := seat t |} ]))
      ∧ cinema_hall_table db' = cinema_hall_table db
      ∧ movie_session_table db' = movie_session_table db
      ∧ order_table db' = order_table db.
Proof.
  intros Hsave. apply Ticket_save_inr in Hsave as [Hclean Hsave]. split.
  - by apply Ticket_clean_ok_iff.
  - apply Model_save_Ticket_success in Hsave
      as (id & msid & oid & Hms & Ho & Hmsin & Hoin & Hid & Hfree & -> & ->).
    exists id, msid, oid. simpl. repeat (split; [done|]).
    split; [|split; [|done]].
    + intros Hpk. rewrite Hpk in Hid. simpl in Hid. subst id.
      pose proof (fresh_pk_not_elem_of (t_id <$> ticket_table db)) as Hfresh.
      split; [done|]. by apply (store_row_fresh t_id).
    + intros k Hpk. rewrite Hpk in Hid. simpl in Hid. subst id.
      split; [done|]. split; [destruct t; simpl in *; by subst|].
      split.
      * intros Hin. unfold store_row. simpl. by rewrite bool_decide_eq_true_2.
      * intros Hout. by apply (store_row_fresh t_id).
Qed.
End save_outcome.

Lemma save_stores_validated_ticket_witness :
  let db := set_ticket_table
      [ {| t_id := 1; t_movie_session_id := 1; t_order_id := 1; t_row := 3; t_seat := 4 |};
        {| t_id := 2; t_movie_session_id := 1; t_order_id := 1; t_row := 3; t_seat := 5 |} ]
      example_db in
  let moved := {| ticket_pk := Some 1; movie_session := example_session;
                  order := example_order; row := 7; seat := 8 |} in
  ∃ db',
    @Ticket_save django_validation moved db = (inr moved, db')
    ∧ ticket_table db'
      = [ {| t_id := 1; t_movie_session_id := 1; t_order_id := 1; t_row := 7; t_seat := 8 |};
          {| t_id := 2; t_movie_session_id := 1; t_order_id := 1; t_row := 3; t_seat := 5 |} ].
Proof.
  intros db moved. eexists. split; [vm_compute; reflexivity|].
  destruct (@save_stores_validated_ticket django_validation moved moved db _
              ltac:(vm_compute; reflexivity))
    as (_ & id & msid & oid & _ & Hms & _ & Ho & _ & _ & Hupdate & _).
  destruct (Hupdate 1 eq_refl) as (_ & _ & Hin_place & _).
  injection Hms as <-. injection Ho as <-.
  apply Hin_place. simpl. apply list_elem_of_here.
Defined.

(** ** No session is oversold *)

Lemma NoDup_fmap_eq {A B} (f : A → B) (l : list A) (x y : A) :
  NoDup (f <$> l) → x ∈ l → y ∈ l → f x = f y → x = y.
Proof.
  induction l as [|a l IH]; [by rewrite elem_of_nil|].
  rewrite fmap_cons, NoDup_cons, !elem_of_cons.
  intros [Ha Hl] [->|Hx] [->|Hy] Hf; [done| | |by apply IH].
  - exfalso. apply Ha. rewrite Hf. by apply list_elem_of_fmap_2.
  - exfalso. apply Ha. rewrite <-Hf. by apply list_elem_of_fmap_2.
Qed.

Lemma NoDup_fmap_filter {A B} (f : A → B) (P : A → Prop)
    `{∀ x, Decision (P x)} (l : list A) :
  NoDup (f <$> l) → NoDup (f <$> filter P l).
Proof.
  intros Hl. pose proof (sublist_filter P l) as Hsub.
  apply (fmap_sublist f) in Hsub. by eapply sublist_NoDup.
Qed.

Section capacity_bound.
Context `{ModelValidation}.

(** X4.  Saving a ticket keeps the stored tickets of a session inside the
    hall, provided the session object the ticket carries for that session
    holds the hall's dimensions. *)
Theorem save_keeps_session_within
    (msid : Z) (hall : CinemaHall) (t : Ticket) (db : DB) :
  (session_pk (movie_session t) = Some msid →
     rows (hall_of t) = rows hall
     ∧ seats_in_row (hall_of t) = seats_in_row hall) →
  session_within msid hall db →
  session_within msid hall (Ticket_save t db).2.
Proof.
  intros Hhall Hin.
  destruct (Ticket_save t db) as [[e|t'] db'] eqn:Hsave; simpl.
  - by apply Ticket_save_inl in Hsave as [-> | ->].
  - apply Ticket_save_inr in Hsave as [Hclean Hsave].
    apply Ticket_clean_ok_iff in Hclean as [Hrow Hseat].
    apply Model_save_Ticket_success in Hsave
      as (id & ms & oid & Hms & _ & _ & _ & _ & _ & _ & ->).
    intros x Hx Hxms. simpl in Hx.
    apply (elem_of_store_row t_id) in Hx as [-> |[Hx _]]; [|by apply Hin].
    simpl in *. subst ms. destruct (Hhall Hms) as [<- <-].
    by split.
Qed.

(** X5.  When no seat is double booked and the stored tickets of a session
    lie inside its hall, the session holds no more tickets than the
    capacity of the hall. *)
Theorem session_never_oversold (msid : Z) (hall : CinemaHall) (db : DB) :
  no_double_booking db →
  session_within msid hall db →
  (length (session_tickets msid db) ≤ Z.to_nat (CinemaHall_capacity hall))%nat.
Proof.
  intros Hkeys Hin. unfold session_tickets.
  set (l := filter (λ r, t_movie_session_id r = msid) (ticket_table db)).
  assert (Hl : ∀ x, x ∈ l → x ∈ ticket_table db ∧ t_movie_session_id x = msid).
  { intros x Hx. apply list_elem_of_filter in Hx. tauto. }
  assert (Hsub : (λ r, (t_row r, t_seat r)) <$> l ⊆+ hall_seats hall).
  { apply NoDup_submseteq.
    - apply NoDup_fmap_2_strong.
      + intros x y Hx Hy [= Hr Hs].
        destruct (Hl x Hx) as [Hxin Hxms], (Hl y Hy) as [Hyin Hyms].
        apply (NoDup_fmap_eq seat_key (ticket_table db)); [done..|].
        unfold seat_key. congruence.
      + apply NoDup_filter. by apply (NoDup_fmap_1 seat_key).
    - intros [r s] Hrs. apply list_elem_of_fmap in Hrs as (x & [= -> ->] & Hx).
      destruct (Hl x Hx) as [Hxin Hxms].
      apply elem_of_hall_seats. by apply Hin. }
  apply submseteq_length in Hsub.
  rewrite length_fmap, length_hall_seats in Hsub.
  unfold CinemaHall_capacity.
  destruct (decide (0 ≤ rows hall)) as [Hr|Hr];
    [destruct (decide (0 ≤ seats_in_row hall)) as [Hs|Hs]|].
  - by rewrite Z2Nat.inj_mul.
  - replace (Z.to_nat (seats_in_row hall)) with 0%nat in Hsub by lia. lia.
  - replace (Z.to_nat (rows hall)) with 0%nat in Hsub by lia. lia.
Qed.
End capacity_bound.

Lemma save_keeps_session_within_witness :
  session_within 1 example_hall
    (@Ticket_save django_validation
       (new_ticket example_session example_order 3 4) example_db).2.
Proof.
  apply (@save_keeps_session_within django_validation).
  - intros _. split; reflexivity.
  - intros r Hr. simpl in Hr. by apply elem_of_nil in Hr.
Defined.

Lemma session_never_oversold_witness :
  (length (session_tickets 1
             (@Ticket_save django_validation
                (new_ticket example_session example_order 3 4) example_db).2)
   ≤ 150)%nat.
Proof.
  apply (session_never_oversold 1 example_hall).
  - vm_compute. apply NoDup_singleton.
  - intros r Hr Hms. vm_compute in Hr. apply list_elem_of_singleton in Hr.
    subst r. simpl. lia.
Defined.

(** ** Updating stored tickets *)

Lemma Model_save_Ticket_taken (t : Ticket) (db : DB) (msid oid : Z) (x : TicketRow) :
  session_pk (movie_session t) = Some msid →
  order_pk (order t) = Some oid →
  msid ∈ ms_id <$> movie_session_table db →
  oid ∈ o_id <$> order_table db →
  x ∈ ticket_table db →
  seat_key x = (msid, row t, seat t) →
  ticket_pk t ≠ Some (t_id x) →
  Model_save_Ticket t db
  = (inl (IntegrityError "unique_ticket_constraint_name"), attempt db).
Proof.
  intros Hms Ho Hmsin Hoin Hx Hkey Hpk. unfold Model_save_Ticket.
  rewrite Hms, Ho. simpl. rewrite !bool_decide_eq_true_2 by done. simpl.
  destruct (violated_constraint _ _) eqn:Hv.
  - by rewrite (violated_constraint_Some _ _ _ Hv).
  - apply violated_constraint_None in Hv. destruct Hv.
    unfold seat_key at 1. simpl. rewrite <-Hkey.
    apply list_elem_of_fmap_2, list_elem_of_filter. split; [|done].
    intros Hid. destruct (ticket_pk t) as [id|]; simpl in Hid.
    + apply Hpk. by rewrite Hid.
    + apply (fresh_pk_not_elem_of (t_id <$> ticket_table db)).
      rewrite <-Hid. by apply list_elem_of_fmap_2.
Qed.

Section ticket_update.
Context `{ModelValidation}.

(** X6.  A ticket, new or already stored, cannot be saved onto a seat
    that another stored ticket of the same session holds: the write is
    refused with the [IntegrityError] of the unique constraint, and
    [save] fails and leaves all four tables as they were. *)
Theorem save_onto_taken_seat_refused
    (t : Ticket) (db : DB) (msid oid : Z) (x : TicketRow) :
  session_pk (movie_session t) = Some msid →
  order_pk (order t) = Some oid →
  msid ∈ ms_id <$> movie_session_table db →
  oid ∈ o_id <$> order_table db →
  x ∈ ticket_table db →
  seat_key x = (msid, row t, seat t) →
  ticket_pk t ≠ Some (t_id x) →
  Model_save_Ticket t db
  = (inl (IntegrityError "unique_ticket_constraint_name"), attempt db)
  ∧ (∃ e, (Ticket_save t db).1 = inl e)
  ∧ ticket_table (Ticket_save t db).2 = ticket_table db
  ∧ movie_session_table (Ticket_save t db).2 = movie_session_table db
  ∧ order_table (Ticket_save t db).2 = order_table db
  ∧ cinema_hall_table (Ticket_save t db).2 = cinema_hall_table db.
Proof.
  intros Hms Ho Hmsin Hoin Hx Hkey Hpk.
  pose proof (Model_save_Ticket_taken t db msid oid x
                Hms Ho Hmsin Hoin Hx Hkey Hpk) as Hwrite.
  split; [exact Hwrite|]. unfold Ticket_save.
  destruct (Ticket_full_clean t db) as [e|[]].
  - split; [by exists e|done].
  - rewrite Hwrite. split; [by eexists|done].
Qed.

(** X7.  Saving again the ticket that a successful [save] returned is
    harmless: when the store has distinct ticket keys and no double
    booking and the ticket still passes validation, the second [save]
    succeeds, returns the same ticket and changes no table. *)
Theorem resave_changes_nothing (t t' : Ticket) (db db' : DB) :
  ticket_pk_unique db → no_double_booking db →
  Ticket_save t db = (inr t', db') →
  Ticket_full_clean t' db' = inr tt →
  Ticket_save t' db' = (inr t', attempt db').
Proof.
  intros Hids Hkeys Hsave Hvalid.
  destruct (Ticket_save_tables t db Hids Hkeys) as [Hids' Hkeys'].
  rewrite Hsave in Hids', Hkeys'. simpl in Hids', Hkeys'.
  unfold Ticket_save in Hsave |- *. rewrite Hvalid.
  destruct (Ticket_full_clean t db); [done|].
  apply Model_save_Ticket_success in Hsave
    as (id & msid & oid & Hms & Ho & Hmsin & Hoin & _ & _ & -> & ->).
  unfold ticket_pk_unique, no_double_booking in Hids', Hkeys'.
  simpl in Hids', Hkeys'.
  set (r := {| t_id := id; t_movie_session_id := msid; t_order_id := oid;
               t_row := row t; t_seat := seat t |}) in *.
  set (table := store_row t_id r (ticket_table db)) in *.
  assert (Hr : r ∈ table) by apply store_row_elem_of.
  unfold Model_save_Ticket. simpl. rewrite Hms, Ho. simpl.
  rewrite !bool_decide_eq_true_2 by done. simpl. fold r.
  assert (violated_constraint r (filter (λ r', t_id r' ≠ id) table) = None)
    as ->.
  { apply violated_constraint_None. intros Hin.
    apply list_elem_of_fmap in Hin as (x & Hkey & Hx).
    apply list_elem_of_filter in Hx as [Hne Hx]. apply Hne.
    by rewrite (NoDup_fmap_eq seat_key table x r Hkeys' Hx Hr). }
  assert (store_row t_id r table = table) as ->; [|done].
  unfold store_row. rewrite bool_decide_eq_true_2
    by (by apply (list_elem_of_fmap_2 t_id) in Hr).
  rewrite <-(list_fmap_id table) at 2. apply list_fmap_ext.
  intros i x Hx. simpl. case_bool_decide as Hid; [|done].
  symmetry. apply (NoDup_fmap_eq t_id table); [done| |done|done].
  by eapply list_elem_of_lookup_2.
Qed.
End ticket_update.

Lemma save_onto_taken_seat_refused_witness :
  let db := set_ticket_table
      [ {| t_id := 1; t_movie_session_id := 1; t_order_id := 1; t_row := 3; t_seat := 4 |};
        {| t_id := 2; t_movie_session_id := 1; t_order_id := 1; t_row := 3; t_seat := 5 |} ]
      example_db in
  let moved := {| ticket_pk := Some 2; movie_session := example_session;
                  order := example_order; row := 3; seat := 4 |} in
  Model_save_Ticket moved db
  = (inl (IntegrityError "unique_ticket_constraint_name"), attempt db).
Proof.
  intros db moved.
  apply (@save_onto_taken_seat_refused django_validation moved db 1 1
           {| t_id := 1; t_movie_session_id := 1; t_order_id := 1;
              t_row := 3; t_seat := 4 |}).
  - reflexivity.
  - reflexivity.
  - simpl. apply list_elem_of_here.
  - simpl. apply list_elem_of_here.
  - simpl. apply list_elem_of_here.
  - reflexivity.
  - simpl. discriminate.
Defined.

Lemma resave_changes_nothing_witness :
  ∃ t' db',
    @Ticket_save django_validation
      (new_ticket example_session example_order 3 4) example_db = (inr t', db')
    ∧ @Ticket_save django_validation t' db' = (inr t', attempt db').
Proof.
  eexists _, _. split; [vm_compute; reflexivity|].
  apply (@resave_changes_nothing django_validation
           (new_ticket example_session example_order 3 4) _ example_db).
  - vm_compute. apply NoDup_nil_2.
  - vm_compute. apply NoDup_nil_2.
  - vm_compute. reflexivity.
  - vm_compute. reflexivity.
Defined.

(** ** Deletion and the rest of the store *)

Section cancel_order.
Context `{ModelValidation}.

(** X8.  Deleting an order frees its seats.  In a store without double
    booking, no ticket left after the deletion holds a seat that a ticket
    of the deleted order held; so a new ticket for that seat, for the
    still stored session and another stored order, is saved once it
    passes validation. *)
Theorem order_delete_frees_seats
    (db : DB) (o o2 : Order) (oid oid2 : Z) (x : TicketRow) (ms : MovieSession) :
  no_double_booking db →
  order_pk o = Some oid →
  x ∈ ticket_table db → t_order_id x = oid →
  (seat_key x ∉ seat_key <$> ticket_table (Order_delete o db).2)
  ∧ (session_pk ms = Some (t_movie_session_id x) →
     t_movie_session_id x ∈ ms_id <$> movie_session_table db →
     order_pk o2 = Some oid2 → oid2 ≠ oid →
     oid2 ∈ o_id <$> order_table db →
     Ticket_full_clean (new_ticket ms o2 (t_row x) (t_seat x))
       (Order_delete o db).2 = inr tt →
     ∃ t' db', Ticket_save (new_ticket ms o2 (t_row x) (t_seat x))
                 (Order_delete o db).2 = (inr t', db')
               ∧ seat_key x ∈ seat_key <$> ticket_table db').
Proof.
  intros Hkeys Ho Hx Hxo.
  assert (Hfree : seat_key x ∉ seat_key <$> ticket_table (Order_delete o db).2).
  { unfold Order_delete. rewrite Ho. simpl. intros Hin.
    apply list_elem_of_fmap in Hin as (y & Hkey & Hy).
    apply list_elem_of_filter in Hy as [Hne Hy]. apply Hne.
    by rewrite <-(NoDup_fmap_eq seat_key (ticket_table db) x y Hkeys Hx Hy Hkey). }
  split; [exact Hfree|].
  intros Hms Hmsin Ho2 Hne Ho2in Hvalid.
  pose proof (Model_save_Ticket_insert ms o2 (t_row x) (t_seat x)
                (t_movie_session_id x) oid2 (Order_delete o db).2) as Hins.
  unfold Ticket_save. rewrite Hvalid. rewrite Hins; try done.
  - eexists _, _. split; [done|]. simpl. rewrite fmap_app.
    apply elem_of_app. right. by apply list_elem_of_singleton.
  - unfold Order_delete. rewrite Ho. simpl. done.
  - unfold Order_delete. rewrite Ho. simpl.
    apply list_elem_of_fmap in Ho2in as (y & -> & Hy).
    apply list_elem_of_fmap_2, list_elem_of_filter. by split.
Qed.
End cancel_order.

Lemma order_delete_frees_seats_witness :
  let db := set_order_table
      [ {| o_id := 1; o_created_at := 900; o_user_id := 1 |};
        {| o_id := 2; o_created_at := 950; o_user_id := 2 |} ]
      (set_ticket_table
         [ {| t_id := 1; t_movie_session_id := 1; t_order_id := 1;
              t_row := 3; t_seat := 4 |} ]
         example_db) in
  let o2 := {| order_pk := Some 2; created_at := Some 950; user := 2 |} in
  ∃ t' db', @Ticket_save django_validation
              (new_ticket example_session o2 3 4) (Order_delete example_order db).2
            = (inr t', db').
Proof.
  intros db o2.
  destruct (proj2 (@order_delete_frees_seats django_validation db
              example_order o2 1 2
              {| t_id := 1; t_movie_session_id := 1; t_order_id := 1;
                 t_row := 3; t_seat := 4 |} example_session
              ltac:(vm_compute; apply NoDup_singleton) eq_refl
              ltac:(simpl; apply list_elem_of_here) eq_refl))
    as (t' & db' & Hsave & _).
  - reflexivity.
  - simpl. apply list_elem_of_here.
  - reflexivity.
  - lia.
  - simpl. apply list_elem_of_further, list_elem_of_here.
  - vm_compute. reflexivity.
  - by exists t', db'.
Defined.

(** *** Deleting what is not stored *)

Lemma filter_all {A} (P : A → Prop) `{∀ x, Decision (P x)} (l : list A) :
  (∀ x, x ∈ l → P x) → filter P l = l.
Proof.
  induction l as [|a l IH]; [done|]. intros Hall.
  rewrite filter_cons_True by (apply Hall; left).
  f_equal. apply IH. intros x Hx. apply Hall. by right.
Qed.

Lemma attempt_same_tables (db : DB) :
  set_movie_session_table (movie_session_table db)
    (set_ticket_table (ticket_table db) (attempt db)) = attempt db
  ∧ set_order_table (order_table db)
      (set_ticket_table (ticket_table db) (attempt db)) = attempt db.
Proof. by destruct db. Qed.

(** X9.  Deleting a session or an order whose key is not stored succeeds
    and changes no table, in a store where every ticket refers to a stored
    session and a stored order; deleting an object that was never saved
    raises an error and does nothing. *)
Theorem delete_of_absent_row_changes_nothing (db : DB) :
  referential_integrity db →
  (∀ s id, session_pk s = Some id → id ∉ ms_id <$> movie_session_table db →
     MovieSession_delete s db = (inr tt, attempt db))
  ∧ (∀ o id, order_pk o = Some id → id ∉ o_id <$> order_table db →
     Order_delete o db = (inr tt, attempt db))
  ∧ (∀ s, session_pk s = None →
     ∃ e, MovieSession_delete s db = (inl e, db))
  ∧ (∀ o, order_pk o = None →
     ∃ e, Order_delete o db = (inl e, db)).
Proof.
  intros Hri. destruct (attempt_same_tables db) as [Hs Ho].
  split; [|split; [|split]].
  - intros s id Hpk Habsent. unfold MovieSession_delete. rewrite Hpk. simpl.
    rewrite (filter_other_ids_fresh ms_id) by done.
    rewrite filter_all; [by rewrite Hs|].
    intros x Hx Heq. apply Habsent. rewrite <-Heq. by apply Hri.
  - intros o id Hpk Habsent. unfold Order_delete. rewrite Hpk. simpl.
    rewrite (filter_other_ids_fresh o_id) by done.
    rewrite filter_all; [by rewrite Ho|].
    intros x Hx Heq. apply Habsent. rewrite <-Heq. by apply Hri.
  - intros s Hpk. unfold MovieSession_delete. rewrite Hpk. by eexists.
  - intros o Hpk. unfold Order_delete. rewrite Hpk. by eexists.
Qed.

Lemma delete_of_absent_row_changes_nothing_witness :
  MovieSession_delete
    {| session_pk := Some 7; show_time := 0; cinema_hall := example_hall; movie := 1 |}
    example_db
  = (inr tt, attempt example_db).
Proof.
  apply (proj1 (delete_of_absent_row_changes_nothing example_db
                  ltac:(intros r Hr; simpl in Hr; by apply elem_of_nil in Hr))
           _ 7).
  - reflexivity.
  - simpl. rewrite list_elem_of_singleton. lia.
Defined.

(** ** Every operation keeps the store consistent *)

Lemma consistent_attempt (db : DB) : consistent db → consistent (attempt db).
Proof. by destruct db. Qed.

Lemma MovieSession_delete_consistent (s : MovieSession) (db : DB) :
  consistent db → consistent (MovieSession_delete s db).2.
Proof.
  intros (Hids & Hkeys & Hri). unfold MovieSession_delete.
  destruct (session_pk s) as [id|]; [|done]. simpl.
  split; [|split].
  - by apply NoDup_fmap_filter.
  - by apply NoDup_fmap_filter.
  - intros x Hx. simpl in *. apply list_elem_of_filter in Hx as [Hne Hx].
    destruct (Hri x Hx) as [Hms Ho]. split; [|done].
    apply list_elem_of_fmap in Hms as (y & Hy & Hyin). rewrite Hy.
    apply list_elem_of_fmap_2, list_elem_of_filter. split; [congruence|done].
Qed.

Lemma Order_delete_consistent (o : Order) (db : DB) :
  consistent db → consistent (Order_delete o db).2.
Proof.
  intros (Hids & Hkeys & Hri). unfold Order_delete.
  destruct (order_pk o) as [id|]; [|done]. simpl.
  split; [|split].
  - by apply NoDup_fmap_filter.
  - by apply NoDup_fmap_filter.
  - intros x Hx. simpl in *. apply list_elem_of_filter in Hx as [Hne Hx].
    destruct (Hri x Hx) as [Hms Ho]. split; [done|].
    apply list_elem_of_fmap in Ho as (y & Hy & Hyin). rewrite Hy.
    apply list_elem_of_fmap_2, list_elem_of_filter. split; [congruence|done].
Qed.

Lemma Order_objects_create_consistent (now user_id : Z) (db : DB) :
  consistent db → consistent (Order_objects_create now user_id db).2.
Proof.
  intros (Hids & Hkeys & Hri). split; [done|]. split; [done|].
  intros x Hx. simpl in *. destruct (Hri x Hx) as [Hms Ho]. split; [done|].
  rewrite fmap_app. apply elem_of_app. by left.
Qed.

Section consistency.
Context `{ModelValidation}.

Lemma Ticket_save_consistent (t : Ticket) (db : DB) :
  consistent db → consistent (Ticket_save t db).2.
Proof.
  intros (Hids & Hkeys & Hri).
  destruct (Ticket_save_tables t db Hids Hkeys) as [Hids' Hkeys'].
  split; [done|]. split; [done|].
  destruct (Ticket_save t db) as [[e|t'] db'] eqn:Hsave; simpl.
  - by apply Ticket_save_inl in Hsave as [-> | ->].
  - apply Ticket_save_inr in Hsave as [_ Hsave].
    apply Model_save_Ticket_success in Hsave
      as (id & ms & oid & _ & _ & Hms & Ho & _ & _ & _ & ->).
    intros x Hx. simpl in *.
    apply (elem_of_store_row t_id) in Hx as [-> |[Hx _]]; [by split|by apply Hri].
Qed.

Lemma run_consistent (op : Operation) (db : DB) :
  consistent db → consistent (run op db).
Proof.
  destruct op; simpl.
  - apply Ticket_save_consistent.
  - apply MovieSession_delete_consistent.
  - apply Order_delete_consistent.
  - intros Hc. unfold CinemaHall_save. case_match; [by destruct db|done].
  - apply Order_objects_create_consistent.
Qed.

(** X10.  Whatever sequence of ticket saves, session and order
    deletions, hall saves and order creations is run, a store that had
    distinct ticket keys, no double booking and no ticket referring to a
    missing session or order still has them afterwards; the empty store
    has all three, so every store built by these operations does. *)
Theorem store_stays_consistent (ops : list Operation) :
  (∀ db, consistent db → consistent (run_all ops db))
  ∧ consistent (run_all ops empty_db).
Proof.
  assert (Hstep : ∀ db, consistent db → consistent (run_all ops db)).
  { unfold run_all. induction ops as [|op ops IH]; intros db Hc; [done|].
    simpl. by apply IH, run_consistent. }
  split; [exact Hstep|]. apply Hstep.
  split; [apply NoDup_nil_2|]. split; [apply NoDup_nil_2|].
  intros x Hx. by apply elem_of_nil in Hx.
Qed.
End consistency.

Lemma store_stays_consistent_witness :
  consistent
    (@run_all django_validation
       [ OpTicketSave (new_ticket example_session example_order 3 4);
         OpTicketSave (new_ticket example_session example_order 3 4);
         OpOrderDelete example_order ]
       example_db).
Proof.
  apply (proj1 (@store_stays_consistent django_validation _)).
  split; [vm_compute; apply NoDup_nil_2|].
  split; [vm_compute; apply NoDup_nil_2|].
  intros x Hx. simpl in Hx. by apply elem_of_nil in Hx.
Defined.

(** ** A new order in the default listing *)

(** X11.  An order created at a time later than the creation time of
    every stored order comes first in [Order.objects.all()]. *)
Theorem new_order_listed_first (db : DB) (now user_id : Z) :
  (∀ r, r ∈ order_table db → o_created_at r < now) →
  head (Order_objects_all (Order_objects_create now user_id db).2)
  = Some (Order_objects_create now user_id db).1.
Proof.
  intros Hlater.
  set (db' := (Order_objects_create now user_id db).2).
  set (new := (Order_objects_create now user_id db).1).
  set (newrow := {| o_id := fresh_pk (o_id <$> order_table db);
                    o_created_at := now; o_user_id := user_id |}).
  assert (Hperm : Order_objects_all db'
                    ≡ₚ Order_of_row <$> (order_table db ++ [newrow])).
  { unfold Order_objects_all. by rewrite merge_sort_Permutation. }
  pose proof (Order_objects_all_sorted db') as Hsorted.
  assert (Hnew : new ∈ Order_objects_all db').
  { rewrite Hperm, fmap_app. apply elem_of_app. right.
    by apply list_elem_of_singleton. }
  destruct (Order_objects_all db') as [|h tl]; [by apply elem_of_nil in Hnew|].
  simpl. f_equal.
  apply elem_of_cons in Hnew as [->|Hnew]; [done|].
  assert (Hh : h ∈ Order_of_row <$> (order_table db ++ [newrow])).
  { rewrite <-Hperm. by left. }
  apply list_elem_of_fmap in Hh as (r & -> & Hr).
  apply elem_of_app in Hr as [Hr|Hr].
  - apply StronglySorted_inv in Hsorted as [_ Hall].
    rewrite Forall_forall in Hall.
    destruct (Hall new Hnew) as (a & b & Ha & Hb & Hle).
    simpl in Ha, Hb. simplify_eq. specialize (Hlater r Hr). lia.
  - apply list_elem_of_singleton in Hr. by subst r.
Qed.

Lemma new_order_listed_first_witness :
  head (Order_objects_all (Order_objects_create 1000 3 example_db).2)
  = Some {| order_pk := Some 2; created_at := Some 1000; user := 3 |}.
Proof.
  apply (new_order_listed_first example_db 1000 3).
  intros r Hr. simpl in Hr. apply list_elem_of_singleton in Hr.
  subst r. simpl. lia.
Defined.

(** ** The label of a ticket *)

Lemma pretty_N_char_not (c : ascii) :
  c = ","%char ∨ c = ")"%char → ∀ d, pretty_N_char d ≠ c.
Proof.
  intros [-> | ->] d; unfold pretty_N_char; by repeat case_match.
Qed.

Lemma pretty_N_go_char_free (c : ascii) (x : N) (s : string) :
  (∀ d, pretty_N_char d ≠ c) → char_free c s → char_free c (pretty_N_go x s).
Proof.
  intros Hdigit. revert s. induction (N.lt_wf_0 x) as [x _ IH]; intros s Hs.
  assert (x = 0 ∨ 0 < x)%N as [->|Hpos] by lia.
  - by rewrite pretty_N_go_0.
  - rewrite pretty_N_go_step by done. apply IH.
    + by apply N.div_lt.
    + simpl. by split.
Qed.

Lemma pretty_Z_char_free (c : ascii) (z : Z) :
  c = ","%char ∨ c = ")"%char → char_free c (pretty z).
Proof.
  intros Hc. pose proof (pretty_N_char_not c Hc) as Hdigit.
  assert (Hpos : ∀ p : positive, char_free c (pretty p)).
  { intros p. unfold pretty, pretty_positive, pretty, pretty_N.
    case_decide; [done|]. by apply pretty_N_go_char_free. }
  assert (Hzero : "0"%char ≠ c) by apply (Hdigit 0%N).
  assert (Hdash : "-"%char ≠ c) by (by destruct Hc as [-> | ->]).
  destruct z as [|p|p]; unfold pretty, pretty_Z.
  - simpl. by split.
  - apply Hpos.
  - simpl. split; [done|]. apply Hpos.
Qed.

Lemma app_char_split (c : ascii) (a a' r r' : string) :
  char_free c a → char_free c a' →
  a +:+ String c r = a' +:+ String c r' → a = a' ∧ r = r'.
Proof.
  revert a'. induction a as [|x a IH]; intros [|x' a']; simpl.
  - intros _ _ [= ->]. done.
  - intros _ [Hne _] [= Hx _]. by destruct Hne.
  - intros [Hne _] _ [= Hx _]. by destruct Hne.
  - intros [_ Ha] [_ Ha'] [= -> Happ].
    destruct (IH a' Ha Ha' Happ) as [-> ->]. done.
Qed.

(** X12.  The label of a ticket tells its seat: two tickets whose
    sessions print alike and whose labels are equal have the same row and
    the same seat. *)
Theorem ticket_label_determines_seat
    (title_of str_datetime : Z → string) (t1 t2 : Ticket) :
  MovieSession_str title_of str_datetime (movie_session t1)
  = MovieSession_str title_of str_datetime (movie_session t2) →
  Ticket_str title_of str_datetime t1 = Ticket_str title_of str_datetime t2 →
  row t1 = row t2 ∧ seat t1 = seat t2.
Proof.
  unfold Ticket_str. intros -> Hlabel.
  apply (inj (String.app _)) in Hlabel.
  apply (inj (String.app " (row: ")) in Hlabel.
  apply (app_char_split ","%char) in Hlabel as [Hrow Hseat];
    [|apply pretty_Z_char_free; by left..].
  apply (inj pretty) in Hrow.
  apply (inj (String.app " seat: ")) in Hseat.
  apply (app_char_split ")"%char _ _ "" "") in Hseat as [Hseat _];
    [|apply pretty_Z_char_free; by right..].
  apply (inj pretty) in Hseat. done.
Qed.

Lemma ticket_label_determines_seat_witness :
  let t1 := new_ticket example_session example_order 3 4 in
  let t2 := {| ticket_pk := Some 9; movie_session := example_session;
               order := {| order_pk := Some 2; created_at := Some 950; user := 2 |};
               row := 3; seat := 4 |} in
  Ticket_str (λ _, "Dune") (λ _, "2024-05-01 19:00:00") t1
  = "Dune 2024-05-01 19:00:00 (row: 3, seat: 4)"
  ∧ row t1 = row t2 ∧ seat t1 = seat t2.
Proof.
  intros t1 t2. split; [reflexivity|].
  apply (ticket_label_determines_seat (λ _, "Dune") (λ _, "2024-05-01 19:00:00")
           t1 t2).
  - reflexivity.
  - reflexivity.
Defined.
